(** * Selene's [sel::State]: a shallow embedding of include/selene/State.h

    [State] wraps one [lua_State*]: it opens or borrows the VM, loads and
    runs scripts, registers native modules and lists the global names.
    The Lua C API it drives is modelled after the Lua reference manual;
    what a script, a file or a native function does is left to a
    [LuaRuntime], so every result below holds for every script. *)

From stdpp Require Import base option list gmap strings.
From Stdlib Require Import ZArith Lia.

Local Open Scope string_scope.
Local Open Scope Z_scope.
Local Open Scope list_scope.

(** ** Values on the VM stack *)

(** A [lua_Number] is a C double.  State.h only moves it around and hands
    it to the C library's formatter, so it is carried as its 64-bit
    IEEE-754 pattern and never computed with. *)
Definition lua_Number := Z.

(** A non-null [lua_State*]; the C++ pointer itself is an [option handle]. *)
Definition handle := positive.

(** The address of a [State] object. *)
Definition addr := positive.

Inductive lua_value : Type :=
  | LNil
  | LBoolean (b : bool)
  | LLightUserdata (p : N)
  | LNumber (n : lua_Number)
  | LString (s : string)
  | LTable (r : N)
  | LFunction (r : N)
  | LCFunction (f : N)
  | LUserdata (r : N)
  | LThread (r : N).

Global Instance lua_value_eq_dec : EqDecision lua_value.
Proof. solve_decision. Defined.

(** lua.h: the basic type tags. *)
Definition LUA_TNONE : Z := -1.
Definition LUA_TNIL : Z := 0.
Definition LUA_TBOOLEAN : Z := 1.
Definition LUA_TLIGHTUSERDATA : Z := 2.
Definition LUA_TNUMBER : Z := 3.
Definition LUA_TSTRING : Z := 4.
Definition LUA_TTABLE : Z := 5.
Definition LUA_TFUNCTION : Z := 6.
Definition LUA_TUSERDATA : Z := 7.
Definition LUA_TTHREAD : Z := 8.

Definition type_tag (v : lua_value) : Z :=
  match v with
  | LNil => LUA_TNIL
  | LBoolean _ => LUA_TBOOLEAN
  | LLightUserdata _ => LUA_TLIGHTUSERDATA
  | LNumber _ => LUA_TNUMBER
  | LString _ => LUA_TSTRING
  | LTable _ => LUA_TTABLE
  | LFunction _ | LCFunction _ => LUA_TFUNCTION
  | LUserdata _ => LUA_TUSERDATA
  | LThread _ => LUA_TTHREAD
  end.

(** lua.h: status codes and call options. *)
Definition LUA_OK : Z := 0.
Definition LUA_ERRRUN : Z := 2.
Definition LUA_ERRSYNTAX : Z := 3.
Definition LUA_ERRMEM : Z := 4.
Definition LUA_MULTRET : Z := -1.

(** ** One VM *)

(** A table is kept as its entries in traversal order. *)
Definition lua_table := list (lua_value * lua_value).

(** The stack has its top at the head: index [-1] is the head, index [1]
    the last element. *)
Record lua_vm := mk_vm {
  vm_stack : list lua_value;
  vm_tables : gmap N lua_table
}.

(** The table references the API itself uses. *)
Definition LUA_RIDX_GLOBALS : N := 2.
Definition LOADED_TABLE : N := 1.

Definition set_stack (st : list lua_value) (vm : lua_vm) : lua_vm :=
  mk_vm st (vm_tables vm).

Definition push (v : lua_value) (vm : lua_vm) : lua_vm :=
  set_stack (v :: vm_stack vm) vm.

(** What a [const char *] shows of a string: the bytes before the first
    NUL.  This is what a [std::string] built from the pointer holds. *)
Fixpoint c_str (s : string) : string :=
  match s with
  | EmptyString => EmptyString
  | String c s' => if decide (c = Ascii.zero) then EmptyString else String c (c_str s')
  end.

(** The value at an acceptable index, [None] where the index names no slot. *)
Definition stack_at (st : list lua_value) (idx : Z) : option lua_value :=
  if idx <? 0 then st !! Z.to_nat (- idx - 1)
  else if idx =? 0 then None
  else if idx <=? Z.of_nat (length st) then st !! (length st - Z.to_nat idx)%nat
  else None.

Definition stack_set (st : list lua_value) (idx : Z) (v : lua_value)
  : list lua_value :=
  if idx <? 0 then <[Z.to_nat (- idx - 1) := v]> st
  else if idx =? 0 then st
  else if idx <=? Z.of_nat (length st) then <[(length st - Z.to_nat idx)%nat := v]> st
  else st.

(** [lua_settop]'s effect: a non-negative index is the new depth, a negative
    one counts from the top. *)
Definition settop (st : list lua_value) (idx : Z) : list lua_value :=
  let len := Z.of_nat (length st) in
  let target := if idx <? 0 then len + idx + 1 else idx in
  if target <=? len then drop (Z.to_nat (len - target)) st
  else replicate (Z.to_nat (target - len)) LNil ++ st.

(** What one call of a function does to the VM. *)
Record call_result := mk_call {
  cr_status : Z;
  cr_values : list lua_value;
  cr_error : lua_value;
  cr_tables : gmap N lua_table
}.

(** [nresults] values out of the returned ones ([LUA_MULTRET]: all of them);
    the last result ends on the top. *)
Definition adjust_results (nresults : Z) (rs : list lua_value) : list lua_value :=
  if nresults <? 0 then rs
  else take (Z.to_nat nresults) (rs ++ replicate (Z.to_nat nresults) LNil).

Definition push_results (rs : list lua_value) (st : list lua_value)
  : list lua_value := rev rs ++ st.

(** [t[k] = v] without metamethods. *)
Fixpoint rawset (k v : lua_value) (t : lua_table) : lua_table :=
  match t with
  | [] => [(k, v)]
  | (k', v') :: t' => if decide (k' = k) then (k, v) :: t' else (k', v') :: rawset k v t'
  end.

(** The traversal step behind [lua_next]: [None] when [k] is not a key of
    the table, [Some None] after the last entry. *)
Fixpoint entry_after (k : lua_value) (t : lua_table)
  : option (option (lua_value * lua_value)) :=
  match t with
  | [] => None
  | (k', _) :: t' => if decide (k' = k) then Some (head t') else entry_after k t'
  end.

Definition table_next (k : lua_value) (t : lua_table)
  : option (option (lua_value * lua_value)) :=
  match k with
  | LNil => Some (head t)
  | _ => entry_after k t
  end.

(** ** What the embedding program is *)

(** The behaviour of everything State.h calls but does not define: the
    compiler, the functions that run, the allocator, the C library's number
    formats, and the header the build was configured with. *)
Class LuaRuntime := {
  LUA_VERSION_NUM : Z;
  rt_newstate : gmap handle lua_vm → bool;
  rt_openlibs : gmap N lua_table → gmap N lua_table;
  rt_loadfile : lua_vm → string → Z * lua_value;
  rt_loadstring : lua_vm → string → Z * lua_value;
  rt_call : lua_vm → lua_value → list lua_value → call_result;
  rt_number2str : lua_Number → string;
  rt_str2number : string → lua_Number;
  rt_sprintf_g : lua_Number → string
}.

(** ** The State object and the world around it *)

(** The callable stored in an [ExceptionHandler]: the default one prints the
    message, a host one is known by its identity. *)
Inductive callback : Type :=
  | EmptyCallback
  | PrintToStdOut
  | HostCallback (id : N).

(** Modelled from the spec: exception.h is not among the sources.  The Error
    Reporter "holds a single callback (code, message, causingFaultReference)
    -> void". *)
Record ExceptionHandler := mk_ExceptionHandler { eh_callback : callback }.

(** Modelled from the spec: Registry.h is not among the sources.  The
    Registry is an external collaborator that is handed the VM handle. *)
Record Registry := mk_Registry { registry_l : option handle }.

(** The four data members; a [unique_ptr] is an [option]. *)
Record State := mk_State {
  _l : option handle;
  _l_owner : bool;
  _registry : option Registry;
  _exception_handler : option ExceptionHandler
}.

(** What the host can observe besides return values. *)
Inductive event : Type :=
  | EvHandle (cb : callback) (code : Z) (msg : string)
  | EvGC (h : handle) (what data : Z)
  | EvClose (h : handle).

Record world := mk_world {
  vms : gmap handle lua_vm;
  objs : gmap addr State;
  trace : list event
}.

(** Ways in which a call does not return to its caller. *)
Inductive fault : Type :=
  | NullState
  | DeadState
  | NullExceptionHandler
  | NoObject
  | BadStack
  | LuaError (status : Z)
  | NullString
  | Thrown (n : Z)
  | LoopBound.

Inductive outcome (A : Type) : Type :=
  | Done (a : A) (w : world)
  | Fault (f : fault).
Arguments Done {A} a w.
Arguments Fault {A} f.

Definition M (A : Type) : Type := world → outcome A.

Global Instance M_ret : MRet M := λ A a w, Done a w.
Global Instance M_bind : MBind M := λ A B k m w,
  match m w with
  | Done a w' => k a w'
  | Fault f => Fault f
  end.

Definition raise {A} (f : fault) : M A := λ _, Fault f.

Definition emit (e : event) : M unit :=
  λ w, Done () (mk_world (vms w) (objs w) (trace w ++ [e])).

(** The depth of the stack behind [h], as [lua_gettop] reports it. *)
Definition depth (h : handle) (w : world) : option Z :=
  (λ vm, Z.of_nat (length (vm_stack vm))) <$> vms w !! h.

Definition the_handle (L : option handle) : M handle :=
  match L with
  | None => raise NullState
  | Some h => mret h
  end.

Definition read_vm (h : handle) : M lua_vm :=
  λ w, match vms w !! h with
       | Some vm => Done vm w
       | None => Fault DeadState
       end.

(** The world with the VM behind [h] replaced, and with one more event. *)
Definition upd (h : handle) (vm : lua_vm) (w : world) : world :=
  mk_world (<[h := vm]> (vms w)) (objs w) (trace w).

Definition log (e : event) (w : world) : world :=
  mk_world (vms w) (objs w) (trace w ++ [e]).

Definition write_vm (h : handle) (vm : lua_vm) : M unit :=
  λ w, Done () (upd h vm w).

Definition drop_vm (h : handle) : M unit :=
  λ w, Done () (mk_world (delete h (vms w)) (objs w) (trace w)).

Definition get_vm (L : option handle) : M lua_vm :=
  h ← the_handle L; read_vm h.

Definition put_vm (L : option handle) (vm : lua_vm) : M unit :=
  h ← the_handle L; write_vm h vm.

(** ** The Lua C API, as far as State.h uses it *)

Section Lua.
Context `{!LuaRuntime}.

(** lua.h: [LUA_ERRFILE] is [LUA_ERRERR + 1], and [LUA_ERRERR] moved when
    5.2 and 5.3 had [LUA_ERRGCMM]. *)
Definition LUA_ERRERR : Z :=
  if (502 <=? LUA_VERSION_NUM) && (LUA_VERSION_NUM <? 504) then 6 else 5.
Definition LUA_ERRFILE : Z := LUA_ERRERR + 1.

Definition LUA_GCCOLLECT : Z := 2.

Definition lua_gettop (L : option handle) : M Z :=
  vm ← get_vm L; mret (Z.of_nat (length (vm_stack vm))).

Definition lua_settop (L : option handle) (idx : Z) : M unit :=
  vm ← get_vm L; put_vm L (set_stack (settop (vm_stack vm) idx) vm).

Definition lua_pop (L : option handle) (n : Z) : M unit :=
  lua_settop L (- n - 1).

Definition lua_pushvalue_ (L : option handle) (v : lua_value) : M unit :=
  vm ← get_vm L; put_vm L (push v vm).

Definition lua_pushnil (L : option handle) : M unit := lua_pushvalue_ L LNil.
Definition lua_pushstring (L : option handle) (s : string) : M unit :=
  lua_pushvalue_ L (LString s).
Definition lua_pushcfunction (L : option handle) (f : N) : M unit :=
  lua_pushvalue_ L (LCFunction f).
Definition lua_pushglobaltable (L : option handle) : M unit :=
  lua_pushvalue_ L (LTable LUA_RIDX_GLOBALS).

Definition lua_type (L : option handle) (idx : Z) : M Z :=
  vm ← get_vm L;
  mret (from_option type_tag LUA_TNONE (stack_at (vm_stack vm) idx)).

(** [lua_tostring]: [None] is the null pointer; a number is turned into a
    string in its stack slot. *)
Definition lua_tostring (L : option handle) (idx : Z) : M (option string) :=
  vm ← get_vm L;
  match stack_at (vm_stack vm) idx with
  | Some (LString s) => mret (Some s)
  | Some (LNumber n) =>
      let s := rt_number2str n in
      put_vm L (set_stack (stack_set (vm_stack vm) idx (LString s)) vm);;
      mret (Some s)
  | _ => mret None
  end.

Definition lua_tonumber (L : option handle) (idx : Z) : M lua_Number :=
  vm ← get_vm L;
  match stack_at (vm_stack vm) idx with
  | Some (LNumber n) => mret n
  | Some (LString s) => mret (rt_str2number s)
  | _ => mret 0
  end.

(** Both loaders push one value: the chunk, or the error message. *)
Definition luaL_loadfile (L : option handle) (file : string) : M Z :=
  vm ← get_vm L;
  let '(status, v) := rt_loadfile vm file in
  put_vm L (push v vm);; mret status.

Definition luaL_loadstring (L : option handle) (code : string) : M Z :=
  vm ← get_vm L;
  let '(status, v) := rt_loadstring vm code in
  put_vm L (push v vm);; mret status.

(** The function and its [nargs] arguments leave the stack; then come the
    results, or in a protected call the one error object.  An error in an
    unprotected call does not return. *)
Definition call_on_stack (protected : bool) (L : option handle)
    (nargs nresults : Z) : M Z :=
  vm ← get_vm L;
  let st := vm_stack vm in
  let n := Z.to_nat nargs in
  match st !! n with
  | None => raise BadStack
  | Some f =>
      let rest := drop (S n) st in
      let cr := rt_call (set_stack rest vm) f (rev (take n st)) in
      if decide (cr_status cr = LUA_OK) then
        put_vm L (mk_vm (push_results (adjust_results nresults (cr_values cr)) rest)
                        (cr_tables cr));;
        mret LUA_OK
      else if protected then
        put_vm L (mk_vm (cr_error cr :: rest) (cr_tables cr));;
        mret (cr_status cr)
      else raise (LuaError (cr_status cr))
  end.

(** [errfunc] is 0 at every call site: no message handler. *)
Definition lua_pcall (L : option handle) (nargs nresults errfunc : Z) : M Z :=
  call_on_stack true L nargs nresults.

Definition lua_call (L : option handle) (nargs nresults : Z) : M unit :=
  call_on_stack false L nargs nresults;; mret ().

(** lauxlib.h: [(luaL_loadstring(L, s) || lua_pcall(L, 0, LUA_MULTRET, 0))]. *)
Definition luaL_dostring (L : option handle) (code : string) : M Z :=
  st ← luaL_loadstring L code;
  if decide (st ≠ 0) then mret 1
  else
    st' ← lua_pcall L 0 LUA_MULTRET 0;
    mret (if decide (st' ≠ 0) then 1 else 0).

(** [t[k] = v] on the table [r]; storing nil removes the entry. *)
Definition table_store (r : N) (k v : lua_value) (ts : gmap N lua_table)
  : gmap N lua_table :=
  let t := default [] (ts !! r) in
  <[r := if decide (v = LNil) then filter (λ e, e.1 ≠ k) t else rawset k v t]> ts.

(** [t[k]] without metamethods: nil where there is no such key. *)
Fixpoint table_get (k : lua_value) (t : lua_table) : lua_value :=
  match t with
  | [] => LNil
  | (k', v') :: t' => if decide (k' = k) then v' else table_get k t'
  end.

(** [lua_toboolean] of a value: everything but nil and false is true. *)
Definition to_boolean (v : lua_value) : bool :=
  match v with
  | LNil | LBoolean false => false
  | _ => true
  end.

(** lauxlib.c of Lua 5.2: call [openf] with the module name, keep the
    result in [package.loaded], also as a global when [glb], and leave it
    on the stack. *)
Definition luaL_requiref_52 (L : option handle) (modname : string) (openf : N)
    (glb : Z) : M unit :=
  lua_pushcfunction L openf;;
  lua_pushstring L modname;;
  lua_call L 1 1;;
  vm ← get_vm L;
  match vm_stack vm with
  | [] => raise BadStack
  | module :: _ =>
      let ts := table_store LOADED_TABLE (LString modname) module (vm_tables vm) in
      let ts' := if decide (glb ≠ 0)
                 then table_store LUA_RIDX_GLOBALS (LString modname) module ts
                 else ts in
      put_vm L (mk_vm (vm_stack vm) ts')
  end.

(** lauxlib.c of Lua 5.3 and 5.4: [package.loaded[modname]] is read first,
    and [openf] is called only if the module is not there yet; the table
    [package.loaded] is on the stack meanwhile. *)
Definition luaL_requiref_53 (L : option handle) (modname : string) (openf : N)
    (glb : Z) : M unit :=
  lua_pushvalue_ L (LTable LOADED_TABLE);;
  vm ← get_vm L;
  let loaded := table_get (LString modname) (default [] (vm_tables vm !! LOADED_TABLE)) in
  lua_pushvalue_ L loaded;;
  (if to_boolean loaded then (mret () : M unit)
   else
     lua_pop L 1;;
     lua_pushcfunction L openf;;
     lua_pushstring L modname;;
     lua_call L 1 1;;
     vm ← get_vm L;
     match vm_stack vm with
     | [] => raise BadStack
     | module :: _ =>
         put_vm L (mk_vm (vm_stack vm)
                         (table_store LOADED_TABLE (LString modname) module (vm_tables vm)))
     end);;
  vm ← get_vm L;
  match vm_stack vm with
  | module :: _ :: rest =>
      put_vm L (mk_vm (module :: rest)
                      (if decide (glb ≠ 0)
                       then table_store LUA_RIDX_GLOBALS (LString modname) module
                                        (vm_tables vm)
                       else vm_tables vm))
  | _ => raise BadStack
  end.

Definition luaL_requiref (L : option handle) (modname : string) (openf : N)
    (glb : Z) : M unit :=
  if 503 <=? LUA_VERSION_NUM then luaL_requiref_53 L modname openf glb
  else luaL_requiref_52 L modname openf glb.

Definition lua_gc (L : option handle) (what data : Z) : M unit :=
  h ← the_handle L; get_vm L;; emit (EvGC h what data).

Definition lua_close (L : option handle) : M unit :=
  h ← the_handle L;
  get_vm L;;
  emit (EvClose h);;
  drop_vm h.

(** A new VM has an empty stack and an empty global table; allocation may
    fail, which is the null pointer. *)
Definition luaL_newstate : M (option handle) :=
  λ w, if rt_newstate (vms w)
       then let h := fresh (dom (vms w)) in
            Done (Some h)
                 (mk_world (<[h := mk_vm [] {[LUA_RIDX_GLOBALS := []]}]> (vms w))
                           (objs w) (trace w))
       else Done None w.

Definition luaL_openlibs (L : option handle) : M unit :=
  vm ← get_vm L; put_vm L (mk_vm (vm_stack vm) (rt_openlibs (vm_tables vm))).

(** [lua_next]: the key on the top is replaced by the next key and its
    value, or just popped after the last entry. *)
Definition lua_next (L : option handle) (idx : Z) : M Z :=
  vm ← get_vm L;
  match vm_stack vm, stack_at (vm_stack vm) idx with
  | k :: st', Some (LTable r) =>
      match vm_tables vm !! r with
      | None => raise BadStack
      | Some t =>
          match table_next k t with
          | None => raise (LuaError LUA_ERRRUN)
          | Some None => put_vm L (set_stack st' vm);; mret 0
          | Some (Some (k', v')) => put_vm L (set_stack (v' :: k' :: st') vm);; mret 1
          end
      end
  | _, _ => raise BadStack
  end.

End Lua.

(** ** sel::State *)

Section StateMethods.
Context `{!LuaRuntime}.

(** Modelled from the spec: util.h (ResetStackOnScopeExit) is not among the
    sources.  "Acquire(handle) captures depth = CurrentStackDepth(handle).
    Release() sets the VM stack back to depth"; the release is the
    destructor, so it runs after the guarded body has produced its value. *)
Definition ResetStackOnScopeExit {A} (L : option handle) (body : M A) : M A :=
  saved ← lua_gettop L;
  r ← body;
  lua_settop L saved;;
  mret r.

(** Modelled from the spec: exception.h (ExceptionHandler::Handle) is not
    among the sources.  The reporter is "invoked whenever the VM returns a
    non-success status" with the code and the message. *)
Definition Handle (eh : ExceptionHandler) (code : Z) (msg : string) : M unit :=
  emit (EvHandle (eh_callback eh) code msg).

(** Modelled from the spec: exception.h (Handle_top_of_stack) is not among
    the sources.  It "reads the error message from the top of the VM's own
    stack"; a top with no text gives the empty message. *)
Definition Handle_top_of_stack (eh : ExceptionHandler) (code : Z)
    (L : option handle) : M unit :=
  msg ← lua_tostring L (-1);
  Handle eh code (default "" msg).

(** [p->] on a [unique_ptr]. *)
Definition arrow {A} (p : option A) : M A :=
  match p with
  | Some a => mret a
  | None => raise NullExceptionHandler
  end.

Definition get_obj (this : addr) : M State :=
  λ w, match objs w !! this with
       | Some s => Done s w
       | None => Fault NoObject
       end.

Definition set_obj (this : addr) (s : State) : M unit :=
  λ w, Done () (mk_world (vms w) (<[this := s]> (objs w)) (trace w)).

Definition del_obj (this : addr) : M unit :=
  λ w, Done () (mk_world (vms w) (delete this (objs w)) (trace w)).

Definition skip : M unit := mret ().

(** [#if LUA_VERSION_NUM >= 502 ... LUA_OK #else ... 0]. *)
Definition lua_ok : Z := if 502 <=? LUA_VERSION_NUM then LUA_OK else 0.

Definition HandleExceptionsPrintingToStdOut (this : addr) : M unit :=
  s ← get_obj this;
  arrow (_exception_handler s);;
  set_obj this (mk_State (_l s) (_l_owner s) (_registry s)
                         (Some (mk_ExceptionHandler PrintToStdOut))).

Definition HandleExceptionsWith (this : addr) (handler : callback) : M unit :=
  s ← get_obj this;
  arrow (_exception_handler s);;
  set_obj this (mk_State (_l s) (_l_owner s) (_registry s)
                         (Some (mk_ExceptionHandler handler))).

(** [State(bool should_open_libs)]. *)
Definition State_new (this : addr) (should_open_libs : bool) : M unit :=
  set_obj this (mk_State None true None (Some (mk_ExceptionHandler EmptyCallback)));;
  l ← luaL_newstate;
  set_obj this (mk_State l true None (Some (mk_ExceptionHandler EmptyCallback)));;
  match l with
  | None => raise (Thrown 0)
  | Some _ =>
      (if should_open_libs then luaL_openlibs l else skip);;
      set_obj this (mk_State l true (Some (mk_Registry l))
                             (Some (mk_ExceptionHandler EmptyCallback)));;
      HandleExceptionsPrintingToStdOut this
  end.

(** [State(lua_State *l)]. *)
Definition State_attach (this : addr) (l : option handle) : M unit :=
  set_obj this (mk_State l false (Some (mk_Registry l))
                         (Some (mk_ExceptionHandler EmptyCallback)));;
  HandleExceptionsPrintingToStdOut this.

(** [State(State &&other)]: three of the four members are initialised. *)
Definition State_move (this other : addr) : M unit :=
  o ← get_obj other;
  set_obj this (mk_State (_l o) (_l_owner o) (_registry o) None);;
  set_obj other (mk_State None (_l_owner o) None (_exception_handler o)).

(** [operator=(State &&other)]. *)
Definition State_move_assign (this other : addr) : M unit :=
  if decide (other = this) then skip
  else
    o ← get_obj other;
    t ← get_obj this;
    set_obj this (mk_State (_l o) (_l_owner o) (_registry o) (_exception_handler t));;
    set_obj other (mk_State None (_l_owner o) None (_exception_handler o)).

Definition ForceGC (s : State) : M unit :=
  lua_gc (_l s) LUA_GCCOLLECT 0.

(** The body of [~State()] on the members. *)
Definition State_finalize (s : State) : M State :=
  (if decide (_l s ≠ None ∧ _l_owner s = true)
   then ForceGC s;; lua_close (_l s)
   else skip);;
  mret (mk_State None (_l_owner s) (_registry s) (_exception_handler s)).

(** [~State()]: the body, then the members and the storage go. *)
Definition State_delete (this : addr) : M unit :=
  s ← get_obj this;
  State_finalize s;;
  del_obj this.

Definition Size (s : State) : M Z := lua_gettop (_l s).

(** The VM gets the path as [file.c_str()]; the fallback messages are built
    from [file] itself, and a message of the VM comes as a [const char *]. *)
Definition Load (s : State) (file : string) : M bool :=
  ResetStackOnScopeExit (_l s) (
    status ← luaL_loadfile (_l s) (c_str file);
    if decide (status ≠ lua_ok) then
      (if decide (status = LUA_ERRSYNTAX) then
         msg ← lua_tostring (_l s) (-1);
         eh ← arrow (_exception_handler s);
         Handle eh status (default (file +:+ ": syntax error") (c_str <$> msg))
       else if decide (status = LUA_ERRFILE) then
         msg ← lua_tostring (_l s) (-1);
         eh ← arrow (_exception_handler s);
         Handle eh status (default (file +:+ ": file error") (c_str <$> msg))
       else skip);;
      mret false
    else
      status ← lua_pcall (_l s) 0 LUA_MULTRET 0;
      if decide (status = lua_ok) then mret true
      else
        msg ← lua_tostring (_l s) (-1);
        eh ← arrow (_exception_handler s);
        Handle eh status (default (file +:+ ": dofile failed") (c_str <$> msg));;
        mret false).

(** The VM gets the name as [modname.c_str()]. *)
Definition OpenLib (s : State) (modname : string) (openf : N) : M unit :=
  ResetStackOnScopeExit (_l s) (
    if 502 <=? LUA_VERSION_NUM then
      luaL_requiref (_l s) (c_str modname) openf 1
    else
      lua_pushcfunction (_l s) openf;;
      lua_pushstring (_l s) (c_str modname);;
      lua_call (_l s) 1 0).

(** [operator()(const char *code)]. *)
Definition Execute (s : State) (code : string) : M bool :=
  ResetStackOnScopeExit (_l s) (
    status ← luaL_dostring (_l s) code;
    if decide (status ≠ 0) then
      eh ← arrow (_exception_handler s);
      Handle_top_of_stack eh status (_l s);;
      mret false
    else mret true).

Definition InteractiveDebug (s : State) : M unit :=
  luaL_dostring (_l s) "debug.debug()";; mret ().

Definition LuaState (s : State) : option handle := _l s.

(** The [while (lua_next(_l, -2) != 0)] loop; [fuel] bounds the number of
    times the condition is evaluated. *)
Fixpoint GlobalNames_loop (fuel : nat) (L : option handle)
    (globals : list string) : M (list string) :=
  match fuel with
  | O => raise LoopBound
  | S fuel' =>
      more ← lua_next L (-2);
      if decide (more ≠ 0) then
        type ← lua_type L (-2);
        globals' ← (if decide (type = LUA_TSTRING) then
                      str ← lua_tostring L (-2);
                      match str with
                      | Some str => mret (globals ++ [c_str str])
                      | None => raise NullString
                      end
                    else if decide (type = LUA_TNUMBER) then
                      n ← lua_tonumber L (-2);
                      mret (globals ++ [rt_sprintf_g n])
                    else mret globals);
        lua_pop L 1;;
        GlobalNames_loop fuel' L globals'
      else mret globals
  end.

Definition GlobalNames (fuel : nat) (s : State) : M (list string) :=
  match _l s with
  | None => mret []
  | Some _ =>
      lua_pushglobaltable (_l s);;
      lua_pushnil (_l s);;
      globals ← GlobalNames_loop fuel (_l s) [];
      lua_pop (_l s) 1;;
      mret globals
  end.

(** A method called on the object at [this]. *)
Definition on_object {A} (this : addr) (method : State → M A) : M A :=
  s ← get_obj this; method s.

End StateMethods.

(** ** Vocabulary of the statements *)

Section Vocabulary.
Context `{!LuaRuntime}.

(** The text [lua_tostring] hands back for a value, if any. *)
Definition text_of (v : lua_value) : option string :=
  match v with
  | LString s => Some s
  | LNumber n => Some (rt_number2str n)
  | _ => None
  end.

(** What [lua_tostring] leaves in the slot it read. *)
Definition text_slot (v : lua_value) : lua_value :=
  match v with
  | LNumber n => LString (rt_number2str n)
  | _ => v
  end.

(** What a failing [Load] or [Execute] comes to once the message is known:
    the reporter is called and false returned, unless there is no
    [ExceptionHandler] to call. *)
Definition reported (s : State) (code : Z) (msg : string) (w : world)
  : outcome bool :=
  match _exception_handler s with
  | Some eh => Done false (log (EvHandle (eh_callback eh) code msg) w)
  | None => Fault NullExceptionHandler
  end.

(** The tables [OpenLib] leaves after the open function returned. *)
Definition OpenLib_tables (modname : string) (cr : call_result) : gmap N lua_table :=
  if 502 <=? LUA_VERSION_NUM then
    let module := default LNil (head (cr_values cr)) in
    table_store LUA_RIDX_GLOBALS (LString modname) module
      (table_store LOADED_TABLE (LString modname) module (cr_tables cr))
  else cr_tables cr.

(** The module [luaL_requiref] finds loaded already, in the versions of Lua
    in which it looks. *)
Definition already_loaded (vm : lua_vm) (modname : string) : option lua_value :=
  let v := table_get (LString modname) (default [] (vm_tables vm !! LOADED_TABLE)) in
  if (503 <=? LUA_VERSION_NUM) && to_boolean v then Some v else None.

(** The call of the open function, when [OpenLib] makes it; from Lua 5.3
    on the function finds [package.loaded] on the stack below it. *)
Definition open_call (vm : lua_vm) (modname : string) (openf : N) : call_result :=
  rt_call (if 503 <=? LUA_VERSION_NUM
           then set_stack (LTable LOADED_TABLE :: vm_stack vm) vm
           else vm)
          (LCFunction openf) [LString modname].

(** What one key contributes to the list. *)
Definition name_of_key (k : lua_value) : list string :=
  match k with
  | LString s => [c_str s]
  | LNumber n => [rt_sprintf_g n]
  | _ => []
  end.

(** Distinct keys, none of them nil: what every Lua table satisfies. *)
Definition table_wf (t : lua_table) : Prop := NoDup t.*1 ∧ LNil ∉ t.*1.

(** The four calls the stack guarantee is about. *)
Inductive call : Type :=
  | CallLoad (file : string)
  | CallExecute (code : string)
  | CallOpenLib (modname : string) (openf : N)
  | CallGlobalNames (fuel : nat).

Definition perform (s : State) (c : call) : M unit :=
  match c with
  | CallLoad file => Load s file;; mret ()
  | CallExecute code => Execute s code;; mret ()
  | CallOpenLib modname openf => OpenLib s modname openf
  | CallGlobalNames fuel => GlobalNames fuel s;; mret ()
  end.

(** The depth of [h]'s stack before and after each call of a sequence, one
    pair per call that returned; a call that does not return ends the run. *)
Fixpoint depth_log (s : State) (h : handle) (cs : list call) (w : world)
  : list (option Z * option Z) :=
  match cs with
  | [] => []
  | c :: cs' =>
      match perform s c w with
      | Done _ w' => (depth h w, depth h w') :: depth_log s h cs' w'
      | Fault _ => []
      end
  end.

End Vocabulary.

(** ** A small host program, for the examples *)

Module Demo.

(** Files: one that runs, one that assigns a global, broken ones, one the
    compiler runs out of memory on, one whose chunk raises a table. *)
Definition loadfile (errfile : Z) (vm : lua_vm) (file : string) : Z * lua_value :=
  if decide (file = "ok.lua") then (0, LFunction 1)
  else if decide (file = "bad.lua") then (3, LString "bad.lua:1: unexpected symbol")
  else if decide (file = "mute.lua") then (3, LNil)
  else if decide (file = "oom.lua") then (4, LString "not enough memory")
  else if decide (file = "boom.lua") then (0, LFunction 3)
  else if decide (file = "gone.lua") then (errfile, LNil)
  else (errfile, LString ("cannot open " +:+ file)).

Definition loadstring (vm : lua_vm) (code : string) : Z * lua_value :=
  if decide (code = "return 1+1") then (0, LFunction 2)
  else if decide (code = "error({})") then (0, LFunction 3)
  else (3, LString "syntax error near <eof>").

(** Functions: chunk 1 sets the global [x], chunk 2 returns 2, the native
    function 0 returns a fresh module table, everything else raises. *)
Definition run_function (vm : lua_vm) (f : lua_value) (args : list lua_value)
  : call_result :=
  match f with
  | LFunction 1%N =>
      mk_call 0 [] LNil
              (<[LUA_RIDX_GLOBALS :=
                   rawset (LString "x") (LNumber 0x3FF0000000000000)
                          (default [] (vm_tables vm !! LUA_RIDX_GLOBALS))]> (vm_tables vm))
  | LFunction 2%N => mk_call 0 [LNumber 0x4000000000000000] LNil (vm_tables vm)
  | LCFunction 0%N => mk_call 0 [LTable 20] LNil (<[20%N := []]> (vm_tables vm))
  | _ => mk_call 2 [] (LTable 7) (vm_tables vm)
  end.

(** The doubles 1, 2, 5 and 42. *)
Definition one : lua_Number := 0x3FF0000000000000.
Definition two : lua_Number := 0x4000000000000000.
Definition five : lua_Number := 0x4014000000000000.
Definition forty_two : lua_Number := 0x4045000000000000.

Definition runtime (version errfile : Z) : LuaRuntime := {|
  LUA_VERSION_NUM := version;
  rt_newstate := λ _, true;
  rt_openlibs := λ ts,
    <[LUA_RIDX_GLOBALS :=
        rawset (LString "string") (LTable 10)
               (default [] (ts !! LUA_RIDX_GLOBALS))]> ts;
  rt_loadfile := loadfile errfile;
  rt_loadstring := loadstring;
  rt_call := run_function;
  rt_number2str := λ n, if decide (n = forty_two) then "42" else "0";
  rt_str2number := λ _, 0;
  rt_sprintf_g := λ n, if decide (n = forty_two) then "42" else "0"
|}.

Definition lua53 : LuaRuntime := runtime 503 7.
Definition lua51 : LuaRuntime := runtime 501 6.

Definition globals : lua_table :=
  [(LString "print", LCFunction 9); (LNumber forty_two, LBoolean true);
   (LBoolean true, LNumber one); (LString "_G", LTable 2)].

Definition vm : lua_vm := mk_vm [LNumber five] {[LUA_RIDX_GLOBALS := globals]}.

(** One live VM behind handle 1, and a State that owns it and reports to
    the host callback 7. *)
Definition w : world := mk_world {[1%positive := vm]} ∅ [].

Definition s : State :=
  mk_State (Some 1%positive) true (Some (mk_Registry (Some 1%positive)))
           (Some (mk_ExceptionHandler (HostCallback 7))).

(** The same with the State stored as the object at address 5. *)
Definition w_obj : world := mk_world {[1%positive := vm]} {[5%positive := s]} [].

Definition nothing : world := mk_world ∅ ∅ [].

(** Host programs on objects, run from the empty world on Lua 5.3:
    a failing operator() on a fresh State, the same on the State it was
    moved into, and a Load on the State it was moved from. *)
Definition original : M bool :=
  @State_new lua53 1%positive false;;
  on_object 1%positive (λ s, @Execute lua53 s "x = = 1").

Definition moved_to : M bool :=
  @State_new lua53 1%positive false;;
  State_move 2%positive 1%positive;;
  on_object 2%positive (λ s, @Execute lua53 s "x = = 1").

Definition moved_from : M bool :=
  @State_new lua53 1%positive false;;
  State_move 2%positive 1%positive;;
  on_object 1%positive (λ s, @Load lua53 s "ok.lua").

(** Two States, the second move-assigned into the first, both destroyed. *)
Definition assign_over_owner : M unit :=
  @State_new lua53 1%positive false;;
  @State_new lua53 2%positive false;;
  State_move_assign 1%positive 2%positive;;
  State_delete 2%positive;;
  State_delete 1%positive.

Definition calls : list call :=
  [CallLoad "ok.lua"; CallExecute "error({})"; CallOpenLib "m" 0;
   CallGlobalNames 10; CallLoad "bad.lua"; CallLoad "oom.lua"].

End Demo.

(** ** Whole programs on State objects *)

Section Programs.
Context `{!LuaRuntime}.

(** [State() : State(false) {}]. *)
Definition State_default (this : addr) : M unit := State_new this false.

(** One statement of a host program: a constructor, a move, a destructor,
    a change of reporter, or one of the four calls on an object. *)
Inductive op : Type :=
  | OpNew (this : addr) (should_open_libs : bool)
  | OpAttach (this : addr) (l : option handle)
  | OpMove (this other : addr)
  | OpMoveAssign (this other : addr)
  | OpDelete (this : addr)
  | OpHandleWith (this : addr) (handler : callback)
  | OpCall (this : addr) (c : call).

Definition run_op (o : op) : M unit :=
  match o with
  | OpNew this should_open_libs => State_new this should_open_libs
  | OpAttach this l => State_attach this l
  | OpMove this other => State_move this other
  | OpMoveAssign this other => State_move_assign this other
  | OpDelete this => State_delete this
  | OpHandleWith this handler => HandleExceptionsWith this handler
  | OpCall this c => on_object this (λ s, perform s c)
  end.

Fixpoint run_ops (os : list op) : M unit :=
  match os with
  | [] => mret ()
  | o :: os' => run_op o;; run_ops os'
  end.

(** The State is the one that will close [h]. *)
Definition owns (s : State) (h : handle) : Prop :=
  _l s = Some h ∧ _l_owner s = true.

(** Every handle some State owns is open, and no handle has two owners. *)
Definition single_owner (w : world) : Prop :=
  (∀ a s h, objs w !! a = Some s → owns s h → is_Some (vms w !! h)) ∧
  (∀ a1 a2 s1 s2 h,
     objs w !! a1 = Some s1 → objs w !! a2 = Some s2 →
     owns s1 h → owns s2 h → a1 = a2).

(** The VM a constructor opens. *)
Definition new_vm (should_open_libs : bool) : lua_vm :=
  let fresh_tables : gmap N lua_table := {[LUA_RIDX_GLOBALS := []]} in
  mk_vm [] (if should_open_libs then rt_openlibs fresh_tables else fresh_tables).

(** The State a constructor leaves around the handle [l]. *)
Definition constructed (l : option handle) (owner : bool) : State :=
  mk_State l owner (Some (mk_Registry l)) (Some (mk_ExceptionHandler PrintToStdOut)).

End Programs.

(** ** More of the host program, for the examples *)

Module Host.

(** A State with a reporter of its own and no handle, as a move leaves
    one; a State with a handle and no reporter, as move construction makes
    one; a State that borrows handle 1. *)
Definition idle : State :=
  mk_State None true None (Some (mk_ExceptionHandler (HostCallback 8))).

Definition orphan : State :=
  mk_State (Some 1%positive) true (Some (mk_Registry (Some 1%positive))) None.

Definition borrower : State :=
  mk_State (Some 1%positive) false (Some (mk_Registry (Some 1%positive)))
           (Some (mk_ExceptionHandler PrintToStdOut)).

(** The demo VM with its owner at address 5 and the idle State at 6. *)
Definition w_two : world :=
  mk_world {[1%positive := Demo.vm]} {[5%positive := Demo.s; 6%positive := idle]} [].

(** A text with a NUL byte in it, a VM whose global table has two keys that
    differ only behind the NUL, and a Lua 5.3 whose chunks all raise that
    text. *)
Definition a_nul_b : string := "a" +:+ String Ascii.zero "b".
Definition a_nul_c : string := "a" +:+ String Ascii.zero "c".

Definition vm_nul : lua_vm :=
  mk_vm [] {[LUA_RIDX_GLOBALS := [(LString a_nul_b, LNumber Demo.one);
                                  (LString a_nul_c, LNumber Demo.two)]]}.

Definition w_nul : world := mk_world {[1%positive := vm_nul]} ∅ [].

Definition lua53_raising : LuaRuntime := {|
  LUA_VERSION_NUM := 503;
  rt_newstate := λ _, true;
  rt_openlibs := λ ts, ts;
  rt_loadfile := λ _ _, (0, LFunction 3);
  rt_loadstring := λ _ _, (0, LFunction 3);
  rt_call := λ vm _ _, mk_call 2 [] (LString a_nul_b) (vm_tables vm);
  rt_number2str := λ _, "0";
  rt_str2number := λ _, 0;
  rt_sprintf_g := λ _, "0"
|}.




(** A program that constructs, borrows, moves, assigns, calls and destroys. *)
Definition program : list op :=
  [OpNew 1%positive true; OpAttach 2%positive (Some 1%positive);
   OpMove 3%positive 1%positive; OpNew 4%positive false;
   OpMoveAssign 4%positive 3%positive; OpCall 4%positive (CallLoad "ok.lua");
   OpHandleWith 4%positive (HostCallback 9);
   OpCall 2%positive (CallExecute "x = = 1");
   OpCall 4%positive (CallGlobalNames 5);
   OpDelete 1%positive; OpDelete 3%positive].

End Host.

(** ** Running the monad *)

Lemma run_bind {A B} (m : M A) (k : A → M B) (w : world) :
  (m ≫= k) w = match m w with Done a w' => k a w' | Fault f => Fault f end.
Proof. reflexivity. Qed.

Lemma world_eta (w : world) : mk_world (vms w) (objs w) (trace w) = w.
Proof. by destruct w. Qed.

Lemma vm_eta (vm : lua_vm) : mk_vm (vm_stack vm) (vm_tables vm) = vm.
Proof. by destruct vm. Qed.

Lemma put_vm_upd h vm w : put_vm (Some h) vm w = Done () (upd h vm w).
Proof. reflexivity. Qed.

Lemma lookup_upd h vm w : vms (upd h vm w) !! h = Some vm.
Proof. apply lookup_insert_eq. Qed.

Lemma upd_upd h vm vm' w : upd h vm' (upd h vm w) = upd h vm' w.
Proof. unfold upd; simpl. by rewrite insert_insert_eq. Qed.

Lemma upd_same h vm w : vms w !! h = Some vm → upd h vm w = w.
Proof. intros Hh. unfold upd. rewrite insert_id by done. apply world_eta. Qed.

Lemma get_vm_eq h vm w : vms w !! h = Some vm → get_vm (Some h) w = Done vm w.
Proof. intros Hh. unfold get_vm, read_vm; simpl. rewrite run_bind; simpl. by rewrite Hh. Qed.

Lemma get_vm_dead h w : vms w !! h = None → get_vm (Some h) w = Fault DeadState.
Proof. intros Hh. unfold get_vm, read_vm; simpl. rewrite run_bind; simpl. by rewrite Hh. Qed.

Lemma settop_restore (extra st : list lua_value) :
  settop (extra ++ st) (Z.of_nat (length st)) = st.
Proof.
  unfold settop. rewrite length_app.
  destruct (Z.ltb_spec (Z.of_nat (length st)) 0); [lia|].
  destruct (Z.leb_spec (Z.of_nat (length st)) (Z.of_nat (length extra + length st))); [|lia].
  replace (Z.to_nat _) with (length extra) by lia.
  by rewrite drop_app_length.
Qed.

Lemma settop_length (st : list lua_value) (n : nat) :
  length (settop st (Z.of_nat n)) = n.
Proof.
  unfold settop. destruct (Z.ltb_spec (Z.of_nat n) 0); [lia|].
  destruct (Z.leb_spec (Z.of_nat n) (Z.of_nat (length st))).
  - rewrite length_drop. lia.
  - rewrite length_app, length_replicate. lia.
Qed.

Lemma settop_pop1 (v : lua_value) (st : list lua_value) :
  settop (v :: st) (- 1 - 1) = st.
Proof.
  unfold settop. cbn [length].
  destruct (Z.ltb_spec (-1 - 1) 0); [|lia].
  destruct (Z.leb_spec (Z.of_nat (S (length st)) + (-1 - 1) + 1) (Z.of_nat (S (length st)))); [|lia].
  replace (Z.to_nat _) with 1%nat by lia. reflexivity.
Qed.

(** A text without a NUL byte is the same through a [const char *]. *)
Lemma c_str_whole (s : string) :
  (∀ s1 s2, s ≠ s1 +:+ String Ascii.zero s2) → c_str s = s.
Proof.
  induction s as [|c s IH]; intros Hno; [done|]. simpl.
  destruct (decide (c = Ascii.zero)) as [->|_].
  - by destruct (Hno "" s).
  - f_equal. apply IH. intros s1 s2 ->. by apply (Hno (String c s1) s2).
Qed.

(** ** The API calls on a live VM *)

Section ApiFacts.
Context `{!LuaRuntime}.

Lemma run_get_vm {A} h vm (k : lua_vm → M A) w :
  vms w !! h = Some vm → (get_vm (Some h) ≫= k) w = k vm w.
Proof. intros Hh. rewrite run_bind. by rewrite (get_vm_eq h vm). Qed.

Lemma lua_gettop_eq h vm w :
  vms w !! h = Some vm →
  lua_gettop (Some h) w = Done (Z.of_nat (length (vm_stack vm))) w.
Proof. intros Hh. unfold lua_gettop. by rewrite (run_get_vm h vm). Qed.

Lemma lua_settop_eq h vm idx w :
  vms w !! h = Some vm →
  lua_settop (Some h) idx w = Done () (upd h (set_stack (settop (vm_stack vm) idx) vm) w).
Proof. intros Hh. unfold lua_settop. by rewrite (run_get_vm h vm). Qed.

Lemma lua_pushvalue_eq h vm v w :
  vms w !! h = Some vm →
  lua_pushvalue_ (Some h) v w = Done () (upd h (push v vm) w).
Proof. intros Hh. unfold lua_pushvalue_. by rewrite (run_get_vm h vm). Qed.

Lemma lua_type_eq h vm idx w :
  vms w !! h = Some vm →
  lua_type (Some h) idx w =
  Done (from_option type_tag LUA_TNONE (stack_at (vm_stack vm) idx)) w.
Proof. intros Hh. unfold lua_type. by rewrite (run_get_vm h vm). Qed.

Lemma lua_tostring_top h vm v st w :
  vms w !! h = Some vm → vm_stack vm = v :: st →
  lua_tostring (Some h) (-1) w =
  Done (text_of v) (upd h (set_stack (text_slot v :: st) vm) w).
Proof.
  intros Hh Hst.
  assert (upd h (set_stack (v :: st) vm) w = w) as Hid.
  { rewrite <- Hst. unfold set_stack. rewrite vm_eta. by apply upd_same. }
  unfold lua_tostring. rewrite (run_get_vm h vm) by done.
  rewrite Hst. unfold stack_at; simpl.
  destruct v; simpl; rewrite ?Hid; reflexivity.
Qed.

Lemma luaL_loadfile_eq h vm file w :
  vms w !! h = Some vm →
  luaL_loadfile (Some h) file w =
  Done (rt_loadfile vm file).1 (upd h (push (rt_loadfile vm file).2 vm) w).
Proof.
  intros Hh. unfold luaL_loadfile. rewrite (run_get_vm h vm) by done.
  by destruct (rt_loadfile vm file).
Qed.

Lemma luaL_loadstring_eq h vm code w :
  vms w !! h = Some vm →
  luaL_loadstring (Some h) code w =
  Done (rt_loadstring vm code).1 (upd h (push (rt_loadstring vm code).2 vm) w).
Proof.
  intros Hh. unfold luaL_loadstring. rewrite (run_get_vm h vm) by done.
  by destruct (rt_loadstring vm code).
Qed.

(** A protected call of the function on the top, with no arguments. *)
Lemma lua_pcall0_eq h vm f st nresults w :
  vms w !! h = Some vm → vm_stack vm = f :: st →
  let cr := rt_call (set_stack st vm) f [] in
  lua_pcall (Some h) 0 nresults 0 w =
  if decide (cr_status cr = LUA_OK)
  then Done LUA_OK (upd h (mk_vm (push_results (adjust_results nresults (cr_values cr)) st)
                                 (cr_tables cr)) w)
  else Done (cr_status cr) (upd h (mk_vm (cr_error cr :: st) (cr_tables cr)) w).
Proof.
  intros Hh Hst cr. unfold lua_pcall, call_on_stack.
  rewrite (run_get_vm h vm) by done. rewrite Hst.
  change (Z.to_nat 0) with 0%nat; simpl. rewrite drop_0.
  fold cr. destruct (decide (cr_status cr = LUA_OK)); reflexivity.
Qed.

Lemma lua_gc_eq h vm what data w :
  vms w !! h = Some vm → lua_gc (Some h) what data w = Done () (log (EvGC h what data) w).
Proof.
  intros Hh. unfold lua_gc. rewrite run_bind; simpl.
  by rewrite run_bind, (get_vm_eq h vm).
Qed.

Lemma lua_close_eq h vm w :
  vms w !! h = Some vm →
  lua_close (Some h) w =
  Done () (mk_world (delete h (vms w)) (objs w) (trace w ++ [EvClose h])).
Proof.
  intros Hh. unfold lua_close. rewrite run_bind; simpl.
  by rewrite run_bind, (get_vm_eq h vm).
Qed.

End ApiFacts.

(** ** The stack guard *)

Section Guard.
Context `{!LuaRuntime}.

(** On a live VM the guard is: run the body, then cut the stack back. *)
Lemma guard_run {A} h vm (body : M A) w :
  vms w !! h = Some vm →
  ResetStackOnScopeExit (Some h) body w =
  match body w with
  | Done r w1 =>
      match vms w1 !! h with
      | Some vm1 =>
          Done r (upd h (set_stack (settop (vm_stack vm1)
                                           (Z.of_nat (length (vm_stack vm)))) vm1) w1)
      | None => Fault DeadState
      end
  | Fault f => Fault f
  end.
Proof.
  intros Hh. unfold ResetStackOnScopeExit.
  rewrite run_bind, (lua_gettop_eq h vm) by done.
  rewrite run_bind. destruct (body w) as [r w1|f]; [|done].
  rewrite run_bind. destruct (vms w1 !! h) as [vm1|] eqn:Hh1.
  - by rewrite (lua_settop_eq h vm1).
  - unfold lua_settop. rewrite run_bind. by rewrite get_vm_dead.
Qed.

(** Whatever the guarded body did, a guarded call that returns leaves the
    depth where it was. *)
Lemma guard_depth {A} L (body : M A) w r w' h :
  ResetStackOnScopeExit L body w = Done r w' → L = Some h →
  depth h w' = depth h w.
Proof.
  intros Hrun ->.
  destruct (vms w !! h) as [vm|] eqn:Hh.
  - rewrite (guard_run h vm) in Hrun by done.
    destruct (body w) as [r1 w1|]; [|done].
    destruct (vms w1 !! h) as [vm1|]; [|done].
    injection Hrun as <- <-.
    unfold depth. rewrite lookup_upd, Hh. simpl. by rewrite settop_length.
  - unfold ResetStackOnScopeExit, lua_gettop in Hrun.
    rewrite run_bind, run_bind in Hrun. by rewrite get_vm_dead in Hrun.
Qed.

End Guard.

(** ** Load *)

Section LoadFacts.
Context `{!LuaRuntime}.

Lemma lua_ok_0 : lua_ok = 0.
Proof. unfold lua_ok, LUA_OK. by destruct (502 <=? LUA_VERSION_NUM). Qed.

Lemma LUA_ERRFILE_cases : LUA_ERRFILE = 6 ∨ LUA_ERRFILE = 7.
Proof.
  unfold LUA_ERRFILE, LUA_ERRERR.
  destruct ((502 <=? LUA_VERSION_NUM) && (LUA_VERSION_NUM <? 504)); auto.
Qed.

(** The report after a failed compile: read the top, call the reporter,
    return false; then the guard cuts the stack back. *)
Lemma Load_report_tail s h vm v status fallback w :
  vms w !! h = Some vm →
  let w1 := upd h (push v vm) w in
  match
    ((msg ← lua_tostring (Some h) (-1);
      eh ← arrow (_exception_handler s);
      Handle eh status (default fallback (c_str <$> msg)));; mret false) w1
  with
  | Done r w2 =>
      match vms w2 !! h with
      | Some vm2 =>
          Done r (upd h (set_stack (settop (vm_stack vm2)
                                           (Z.of_nat (length (vm_stack vm)))) vm2) w2)
      | None => Fault DeadState
      end
  | Fault f => Fault f
  end = reported s status (default fallback (c_str <$> text_of v)) w.
Proof.
  intros Hh w1. unfold reported.
  rewrite run_bind, run_bind.
  rewrite (lua_tostring_top h (push v vm) v (vm_stack vm)) by (apply lookup_upd || done).
  destruct (_exception_handler s) as [eh|]; simpl; [|done].
  rewrite lookup_insert_eq. simpl.
  change (text_slot v :: vm_stack vm) with ([text_slot v] ++ vm_stack vm).
  rewrite settop_restore.
  f_equal. unfold log, upd, set_stack; simpl.
  rewrite !insert_insert_eq. rewrite vm_eta, insert_id by done. reflexivity.
Qed.

(** [Load] when the file does not compile. *)
Lemma Load_compile_failed s h vm file w :
  _l s = Some h → vms w !! h = Some vm →
  let status := (rt_loadfile vm (c_str file)).1 in
  let v := (rt_loadfile vm (c_str file)).2 in
  status ≠ lua_ok →
  Load s file w =
  if decide (status = LUA_ERRSYNTAX)
  then reported s status (default (file +:+ ": syntax error") (c_str <$> text_of v)) w
  else if decide (status = LUA_ERRFILE)
  then reported s status (default (file +:+ ": file error") (c_str <$> text_of v)) w
  else Done false w.
Proof.
  intros Hl Hh status v Hst. unfold Load. rewrite Hl.
  rewrite (guard_run h vm) by done.
  rewrite run_bind, (luaL_loadfile_eq h vm) by done. fold status v.
  destruct (decide (status ≠ lua_ok)) as [_|]; [|done].
  destruct (decide (status = LUA_ERRSYNTAX)).
  { by apply Load_report_tail. }
  destruct (decide (status = LUA_ERRFILE)).
  { by apply Load_report_tail. }
  simpl. rewrite lookup_insert_eq. simpl.
  change (v :: vm_stack vm) with ([v] ++ vm_stack vm).
  rewrite settop_restore. f_equal.
  unfold upd, set_stack; simpl.
  rewrite !insert_insert_eq. rewrite vm_eta, insert_id by done. apply world_eta.
Qed.

(** [Load] when the file compiles: the chunk is called, protected. *)
Lemma Load_compiled s h vm file w :
  _l s = Some h → vms w !! h = Some vm →
  let v := (rt_loadfile vm (c_str file)).2 in
  let cr := rt_call vm v [] in
  let w' := upd h (mk_vm (vm_stack vm) (cr_tables cr)) w in
  (rt_loadfile vm (c_str file)).1 = lua_ok →
  Load s file w =
  if decide (cr_status cr = lua_ok) then Done true w'
  else reported s (cr_status cr)
                (default (file +:+ ": dofile failed") (c_str <$> text_of (cr_error cr))) w'.
Proof.
  intros Hl Hh v cr w' Hst. unfold Load. rewrite Hl.
  rewrite (guard_run h vm) by done.
  rewrite run_bind, (luaL_loadfile_eq h vm) by done. fold v. rewrite Hst.
  destruct (decide (lua_ok ≠ lua_ok)) as [|_]; [done|].
  rewrite run_bind.
  rewrite (lua_pcall0_eq h (push v vm) v (vm_stack vm)) by (apply lookup_upd || done).
  simpl. replace (set_stack (vm_stack vm) (push v vm)) with vm
    by (unfold set_stack, push; simpl; by rewrite vm_eta).
  fold cr. rewrite lua_ok_0. change LUA_OK with 0.
  destruct (decide (cr_status cr = 0)) as [Hok|Hok].
  - destruct (decide (0 = 0)) as [_|]; [|done]. simpl.
    rewrite lookup_insert_eq; simpl.
    unfold push_results. rewrite settop_restore.
    f_equal. unfold w', upd, set_stack; simpl. by rewrite !insert_insert_eq.
  - destruct (decide (cr_status cr = 0)) as [|_]; [done|].
    unfold reported. rewrite run_bind.
    erewrite (lua_tostring_top h _ (cr_error cr) (vm_stack vm))
      by (apply lookup_upd || done).
    destruct (_exception_handler s) as [eh|]; simpl; [|done].
    rewrite lookup_insert_eq. simpl.
    change (text_slot (cr_error cr) :: vm_stack vm)
      with ([text_slot (cr_error cr)] ++ vm_stack vm).
    rewrite settop_restore.
    f_equal. unfold w', log, upd, set_stack; simpl.
    by rewrite !insert_insert_eq.
Qed.

End LoadFacts.

(** ** operator() and OpenLib *)

Section ExecuteFacts.
Context `{!LuaRuntime}.

(** [luaL_dostring] on a live VM always comes back, with 0 or 1; the VM it
    leaves has the old stack under what the run pushed. *)
Lemma luaL_dostring_eq h vm code w :
  vms w !! h = Some vm →
  let st := (rt_loadstring vm code).1 in
  let v := (rt_loadstring vm code).2 in
  let cr := rt_call vm v [] in
  luaL_dostring (Some h) code w =
  if decide (st ≠ 0) then Done 1 (upd h (push v vm) w)
  else if decide (cr_status cr = 0)
  then Done 0 (upd h (mk_vm (push_results (cr_values cr) (vm_stack vm)) (cr_tables cr)) w)
  else Done 1 (upd h (mk_vm (cr_error cr :: vm_stack vm) (cr_tables cr)) w).
Proof.
  intros Hh st v cr. unfold luaL_dostring.
  rewrite run_bind, (luaL_loadstring_eq h vm) by done. fold st v.
  destruct (decide (st ≠ 0)); [done|].
  rewrite run_bind.
  rewrite (lua_pcall0_eq h (push v vm) v (vm_stack vm)) by (apply lookup_upd || done).
  simpl. replace (set_stack (vm_stack vm) (push v vm)) with vm
    by (unfold set_stack, push; simpl; by rewrite vm_eta).
  fold cr. change LUA_OK with 0. rewrite !upd_upd.
  destruct (decide (cr_status cr = 0)) as [Hok|Hok]; simpl.
  - by destruct (decide (0 ≠ 0)).
  - by destruct (decide (cr_status cr ≠ 0)).
Qed.

(** [operator()]: a report after either kind of failure, and the stack as
    it was. *)
Lemma Execute_cases s h vm code w :
  _l s = Some h → vms w !! h = Some vm →
  let st := (rt_loadstring vm code).1 in
  let v := (rt_loadstring vm code).2 in
  let cr := rt_call vm v [] in
  let w' := upd h (mk_vm (vm_stack vm) (cr_tables cr)) w in
  Execute s code w =
  if decide (st ≠ 0) then reported s 1 (default "" (text_of v)) w
  else if decide (cr_status cr = 0) then Done true w'
  else reported s 1 (default "" (text_of (cr_error cr))) w'.
Proof.
  intros Hl Hh st v cr w'. unfold Execute. rewrite Hl.
  rewrite (guard_run h vm) by done.
  rewrite run_bind, (luaL_dostring_eq h vm) by done. fold st v cr.
  destruct (decide (st ≠ 0)); [|destruct (decide (cr_status cr = 0))].
  - destruct (decide (1 ≠ 0)) as [_|]; [|lia].
    unfold reported. rewrite run_bind.
    destruct (_exception_handler s) as [eh|]; simpl; [|done].
    unfold Handle_top_of_stack. rewrite run_bind, run_bind.
    rewrite (lua_tostring_top h (push v vm) v (vm_stack vm)) by (apply lookup_upd || done).
    simpl. rewrite lookup_insert_eq. simpl.
    change (text_slot v :: vm_stack vm) with ([text_slot v] ++ vm_stack vm).
    rewrite settop_restore.
    f_equal. unfold log, upd, set_stack; simpl.
    rewrite !insert_insert_eq. rewrite vm_eta, insert_id by done. reflexivity.
  - destruct (decide (0 ≠ 0)) as [|_]; [lia|]. simpl.
    rewrite lookup_insert_eq. simpl.
    unfold push_results. rewrite settop_restore.
    f_equal. unfold w', upd, set_stack; simpl. by rewrite !insert_insert_eq.
  - destruct (decide (1 ≠ 0)) as [_|]; [|lia].
    unfold reported. rewrite run_bind.
    destruct (_exception_handler s) as [eh|]; simpl; [|done].
    unfold Handle_top_of_stack. rewrite run_bind, run_bind.
    erewrite (lua_tostring_top h _ (cr_error cr) (vm_stack vm))
      by (apply lookup_upd || done).
    simpl. rewrite lookup_insert_eq. simpl.
    change (text_slot (cr_error cr) :: vm_stack vm)
      with ([text_slot (cr_error cr)] ++ vm_stack vm).
    rewrite settop_restore.
    f_equal. unfold w', log, upd, set_stack; simpl.
    by rewrite !insert_insert_eq.
Qed.

End ExecuteFacts.

Section OpenLibFacts.
Context `{!LuaRuntime}.

(** An unprotected call of a function with one argument. *)
Lemma lua_call1_eq h vm f a st nresults w :
  vms w !! h = Some vm → vm_stack vm = a :: f :: st →
  let cr := rt_call (set_stack st vm) f [a] in
  lua_call (Some h) 1 nresults w =
  if decide (cr_status cr = LUA_OK)
  then Done () (upd h (mk_vm (push_results (adjust_results nresults (cr_values cr)) st)
                             (cr_tables cr)) w)
  else Fault (LuaError (cr_status cr)).
Proof.
  intros Hh Hst cr. unfold lua_call, call_on_stack.
  rewrite run_bind, (run_get_vm h vm) by done. rewrite Hst.
  change (Z.to_nat 1) with 1%nat; simpl. rewrite drop_0.
  fold cr. destruct (decide (cr_status cr = LUA_OK)); reflexivity.
Qed.

Lemma adjust_results_1 rs : adjust_results 1 rs = [default LNil (head rs)].
Proof. unfold adjust_results. change (Z.to_nat 1) with 1%nat. by destruct rs. Qed.

Lemma adjust_results_0 rs : adjust_results 0 rs = [].
Proof. unfold adjust_results. by change (Z.to_nat 0) with 0%nat. Qed.

(** [OpenLib]: a module found loaded is taken as it is; otherwise the
    open function is called, and [OpenLib] returns exactly when it does,
    its error being raised outside any protected call. *)
Lemma OpenLib_cases s h vm modname openf w :
  _l s = Some h → vms w !! h = Some vm →
  OpenLib s modname openf w =
  match already_loaded vm (c_str modname) with
  | Some module =>
      Done () (upd h (mk_vm (vm_stack vm)
                            (table_store LUA_RIDX_GLOBALS (LString (c_str modname)) module
                                         (vm_tables vm))) w)
  | None =>
      let cr := open_call vm (c_str modname) openf in
      if decide (cr_status cr = 0)
      then Done () (upd h (mk_vm (vm_stack vm) (OpenLib_tables (c_str modname) cr)) w)
      else Fault (LuaError (cr_status cr))
  end.
Proof.
  intros Hl Hh. unfold OpenLib, OpenLib_tables, already_loaded, open_call. rewrite Hl.
  rewrite (guard_run h vm) by done.
  assert (set_stack (vm_stack vm) (push (LString (c_str modname)) (push (LCFunction openf) vm)) = vm)
    as Hvm by (unfold set_stack, push; simpl; by rewrite vm_eta).
  destruct (502 <=? LUA_VERSION_NUM) eqn:H502.
  - unfold luaL_requiref. destruct (503 <=? LUA_VERSION_NUM) eqn:H503; cbn [andb].
    + (* Lua 5.3 and later *)
      unfold luaL_requiref_53.
      rewrite run_bind, (lua_pushvalue_eq h vm) by done.
      rewrite (run_get_vm h (push (LTable LOADED_TABLE) vm)) by apply lookup_upd.
      cbn [push set_stack vm_tables vm_stack].
      set (loaded := table_get (LString (c_str modname))
                               (default [] (vm_tables vm !! LOADED_TABLE))).
      rewrite run_bind.
      erewrite (lua_pushvalue_eq h) by apply lookup_upd.
      rewrite upd_upd. cbn [push set_stack vm_tables vm_stack].
      rewrite run_bind.
      destruct (to_boolean loaded) eqn:Hloaded.
      * unfold mret, M_ret. cbn beta iota.
        erewrite (run_get_vm h) by apply lookup_upd.
        cbn [push set_stack vm_stack vm_tables]. rewrite put_vm_upd, upd_upd.
        destruct (decide (1 ≠ 0)) as [_|]; [|lia].
        cbn [upd vms]. rewrite lookup_insert_eq. cbn [vm_stack].
        change (loaded :: vm_stack vm) with ([loaded] ++ vm_stack vm).
        rewrite settop_restore.
        f_equal. unfold upd, set_stack; simpl. by rewrite !insert_insert_eq.
      * rewrite run_bind. unfold lua_pop.
        erewrite (lua_settop_eq h) by apply lookup_upd.
        cbn [push set_stack vm_stack vm_tables]. rewrite settop_pop1, upd_upd.
        unfold lua_pushcfunction, lua_pushstring.
        rewrite run_bind. erewrite (lua_pushvalue_eq h) by apply lookup_upd.
        rewrite upd_upd. cbn [push set_stack vm_tables vm_stack].
        rewrite run_bind. erewrite (lua_pushvalue_eq h) by apply lookup_upd.
        rewrite upd_upd. cbn [push set_stack vm_tables vm_stack].
        rewrite run_bind.
        erewrite (lua_call1_eq h _ (LCFunction openf) (LString (c_str modname))
                               (LTable LOADED_TABLE :: vm_stack vm))
          by (apply lookup_upd || done).
        cbn [push set_stack vm_stack vm_tables]. change LUA_OK with 0.
        unfold set_stack.
        destruct (decide (cr_status _ = 0)); [|done].
        rewrite upd_upd.
        erewrite (run_get_vm h) by apply lookup_upd.
        rewrite adjust_results_1. cbn [push_results rev app vm_stack vm_tables].
        rewrite put_vm_upd, upd_upd.
        erewrite (run_get_vm h) by apply lookup_upd.
        cbn [push set_stack vm_stack vm_tables]. rewrite put_vm_upd, upd_upd.
        destruct (decide (1 ≠ 0)) as [_|]; [|lia].
        cbn [upd vms]. rewrite lookup_insert_eq. cbn [vm_stack].
        match goal with
        | |- context [settop (?m :: vm_stack vm) _] =>
            change (m :: vm_stack vm) with ([m] ++ vm_stack vm)
        end.
        rewrite settop_restore.
        f_equal. unfold upd, set_stack; simpl. by rewrite !insert_insert_eq.
    + (* Lua 5.2 *)
      unfold luaL_requiref_52, lua_pushcfunction, lua_pushstring.
      rewrite run_bind, (lua_pushvalue_eq h vm) by done.
      rewrite run_bind, (lua_pushvalue_eq h (push (LCFunction openf) vm))
        by apply lookup_upd.
      rewrite run_bind.
      erewrite (lua_call1_eq h _ (LCFunction openf) (LString (c_str modname)) (vm_stack vm))
        by (apply lookup_upd || done).
      rewrite Hvm. change LUA_OK with 0.
      destruct (decide (cr_status _ = 0)); [|done].
      rewrite (run_get_vm h _) by apply lookup_upd.
      rewrite adjust_results_1. simpl.
      rewrite lookup_insert_eq. simpl.
      unfold push_results. rewrite settop_restore.
      f_equal. unfold upd, set_stack; simpl. by rewrite !insert_insert_eq.
  - assert ((503 <=? LUA_VERSION_NUM) = false) as ->.
    { destruct (Z.leb_spec 502 LUA_VERSION_NUM); [done|].
      destruct (Z.leb_spec 503 LUA_VERSION_NUM); [lia|done]. }
    cbn [andb].
    unfold lua_pushcfunction, lua_pushstring.
    rewrite run_bind, (lua_pushvalue_eq h vm) by done.
    rewrite run_bind, (lua_pushvalue_eq h (push (LCFunction openf) vm)) by apply lookup_upd.
    erewrite (lua_call1_eq h _ (LCFunction openf) (LString (c_str modname)) (vm_stack vm))
      by (apply lookup_upd || done).
    rewrite Hvm. change LUA_OK with 0.
    destruct (decide (cr_status _ = 0)); [|done].
    rewrite adjust_results_0. simpl.
    rewrite lookup_insert_eq. simpl.
    unfold push_results. rewrite settop_restore.
    f_equal. unfold upd, set_stack; simpl. by rewrite !insert_insert_eq.
Qed.

End OpenLibFacts.

(** ** GlobalNames *)

Section GlobalNamesFacts.
Context `{!LuaRuntime}.

(** One evaluation of the loop condition, and the body if it holds. *)
Lemma GlobalNames_loop_step fuel h vm k r st t acc w :
  vms w !! h = Some vm → vm_stack vm = k :: LTable r :: st →
  vm_tables vm !! r = Some t →
  GlobalNames_loop (S fuel) (Some h) acc w =
  match table_next k t with
  | None => Fault (LuaError LUA_ERRRUN)
  | Some None => Done acc (upd h (set_stack (LTable r :: st) vm) w)
  | Some (Some (k', v')) =>
      GlobalNames_loop fuel (Some h) (acc ++ name_of_key k')
                       (upd h (set_stack (k' :: LTable r :: st) vm) w)
  end.
Proof.
  intros Hh Hst Ht. cbn [GlobalNames_loop].
  rewrite run_bind. unfold lua_next. rewrite (run_get_vm h vm) by done.
  rewrite Hst. unfold stack_at; simpl. rewrite Ht.
  destruct (table_next k t) as [[[k' v']|]|]; [| |done].
  - rewrite run_bind; simpl.
    destruct (decide (1 ≠ 0)) as [_|]; [|lia].
    rewrite run_bind.
    erewrite (lua_type_eq h) by apply lookup_upd.
    unfold stack_at; simpl.
    set (vm' := set_stack (v' :: k' :: LTable r :: st) vm).
    assert (lua_pop (Some h) 1 (upd h vm' w)
            = Done () (upd h (set_stack (k' :: LTable r :: st) vm) w)) as Hpop.
    { unfold lua_pop. erewrite (lua_settop_eq h vm') by apply lookup_upd.
      unfold vm'; simpl. rewrite settop_pop1. by rewrite upd_upd. }
    assert (∀ (m : M (list string)) l,
              m (upd h vm' w) = Done l (upd h vm' w) →
              (m ≫= λ globals', lua_pop (Some h) 1;; GlobalNames_loop fuel (Some h) globals')
                (upd h vm' w)
              = GlobalNames_loop fuel (Some h) l
                  (upd h (set_stack (k' :: LTable r :: st) vm) w)) as Hrest.
    { intros m l Hm. rewrite run_bind, Hm, run_bind, Hpop. done. }
    destruct k'; simpl; unfold LUA_TSTRING, LUA_TNUMBER;
      repeat (match goal with |- context [decide ?P] => destruct (decide P); try lia end);
      apply Hrest; try (rewrite app_nil_r; reflexivity).
    + unfold lua_tonumber. rewrite run_bind. erewrite run_get_vm by apply lookup_upd.
      unfold stack_at; simpl. reflexivity.
    + unfold lua_tostring. rewrite run_bind. erewrite run_get_vm by apply lookup_upd.
      unfold stack_at; simpl. reflexivity.
  - reflexivity.
Qed.

(** With no table behind the reference the iteration does not start. *)
Lemma GlobalNames_loop_no_table fuel h vm k r st acc w :
  vms w !! h = Some vm → vm_stack vm = k :: LTable r :: st →
  vm_tables vm !! r = None →
  ∃ f, GlobalNames_loop fuel (Some h) acc w = Fault f.
Proof.
  intros Hh Hst Ht. destruct fuel as [|fuel]; [by eexists|].
  cbn [GlobalNames_loop]. rewrite run_bind. unfold lua_next.
  rewrite (run_get_vm h vm) by done.
  rewrite Hst. unfold stack_at; simpl. rewrite Ht. by eexists.
Qed.

(** Whenever the loop ends, it leaves the table on the top and the rest of
    the VM as it found it. *)
Lemma GlobalNames_loop_world fuel h r st : ∀ vm k acc w names w',
  vms w !! h = Some vm → vm_stack vm = k :: LTable r :: st →
  GlobalNames_loop fuel (Some h) acc w = Done names w' →
  w' = upd h (set_stack (LTable r :: st) vm) w.
Proof.
  induction fuel as [|fuel IH]; intros vm k acc w names w' Hh Hst Hrun; [done|].
  destruct (vm_tables vm !! r) as [t|] eqn:Ht.
  - rewrite (GlobalNames_loop_step fuel h vm k r st t) in Hrun by done.
    destruct (table_next k t) as [[[k' v']|]|]; [| |done].
    + eapply IH in Hrun; [|apply lookup_upd|done].
      rewrite Hrun, upd_upd. reflexivity.
    + by injection Hrun as _ <-.
  - destruct (GlobalNames_loop_no_table (S fuel) h vm k r st acc w) as [f Hf]; try done.
    congruence.
Qed.

(** In a table whose keys are distinct, the entry after a key is the next
    one of the list. *)
Lemma entry_after_next (pre rest : lua_table) k v :
  NoDup (pre ++ (k, v) :: rest).*1 →
  entry_after k (pre ++ (k, v) :: rest) = Some (head rest).
Proof.
  induction pre as [|[k0 v0] pre IH]; simpl; intros Hnd.
  - by destruct (decide (k = k)).
  - apply NoDup_cons in Hnd as [Hk0 Hnd].
    destruct (decide (k0 = k)) as [->|_]; [|by apply IH].
    exfalso. apply Hk0. rewrite fmap_app. apply elem_of_app. right.
    simpl. apply elem_of_cons. by left.
Qed.

(** The loop from the entry whose key is on the top: it goes through the
    entries that remain, in order. *)
Lemma GlobalNames_loop_run h r st t : ∀ rest pre k v fuel vm acc w,
  t = pre ++ (k, v) :: rest → NoDup t.*1 → LNil ∉ t.*1 →
  vms w !! h = Some vm → vm_stack vm = k :: LTable r :: st →
  vm_tables vm !! r = Some t → (length rest < fuel)%nat →
  GlobalNames_loop fuel (Some h) acc w =
  Done (acc ++ concat (name_of_key <$> rest.*1))
       (upd h (set_stack (LTable r :: st) vm) w).
Proof.
  induction rest as [|[k2 v2] rest IH];
    intros pre k v fuel vm acc w Heq Hnd Hnil Hh Hst Ht Hfuel;
    (destruct fuel as [|fuel]; [simpl in Hfuel; lia|]);
    rewrite (GlobalNames_loop_step fuel h vm k r st t) by done.
  all: assert (table_next k t = entry_after k t) as ->
    by (destruct k; try done; exfalso; apply Hnil; subst t;
        rewrite fmap_app; apply elem_of_app; right; simpl; apply elem_of_cons; by left).
  all: pose proof Hnd as Hnd'; rewrite Heq in Hnd'.
  all: rewrite Heq at 1; rewrite entry_after_next by done; simpl.
  - by rewrite app_nil_r.
  - rewrite (IH (pre ++ [(k, v)]) k2 v2 fuel
                (set_stack (k2 :: LTable r :: st) vm)); try done.
    + rewrite upd_upd, <- app_assoc. reflexivity.
    + by rewrite <- app_assoc.
    + apply lookup_upd.
    + simpl in Hfuel. lia.
Qed.

(** [GlobalNames] on a live VM: the names of the string and number keys of
    the global table, in the table's order, and the world as it was. *)
Lemma GlobalNames_live fuel s h vm t w :
  _l s = Some h → vms w !! h = Some vm →
  vm_tables vm !! LUA_RIDX_GLOBALS = Some t → table_wf t →
  (length t < fuel)%nat →
  GlobalNames fuel s w = Done (concat (name_of_key <$> t.*1)) w.
Proof.
  intros Hl Hh Ht [Hnd Hnil] Hfuel. unfold GlobalNames. rewrite Hl.
  unfold lua_pushglobaltable, lua_pushnil.
  rewrite run_bind, (lua_pushvalue_eq h vm) by done.
  rewrite run_bind. erewrite (lua_pushvalue_eq h) by apply lookup_upd.
  rewrite upd_upd. rewrite run_bind.
  set (vm2 := push LNil (push (LTable LUA_RIDX_GLOBALS) vm)).
  assert (∀ names,
    ((lua_pop (Some h) 1;; mret names) : M (list string))
      (upd h (set_stack (LTable LUA_RIDX_GLOBALS :: vm_stack vm) vm2) w)
    = Done names w) as Hpop.
  { intros names. rewrite run_bind. unfold lua_pop.
    erewrite (lua_settop_eq h) by apply lookup_upd.
    simpl. rewrite settop_pop1, upd_upd. unfold set_stack; simpl.
    rewrite vm_eta. by rewrite upd_same. }
  destruct fuel as [|fuel]; [lia|].
  rewrite (GlobalNames_loop_step fuel h vm2 LNil LUA_RIDX_GLOBALS (vm_stack vm) t)
    by (apply lookup_upd || done).
  destruct t as [|[k v] rest]; simpl.
  - rewrite upd_upd. apply Hpop.
  - rewrite upd_upd.
    rewrite (GlobalNames_loop_run h LUA_RIDX_GLOBALS (vm_stack vm) ((k, v) :: rest)
               rest [] k v fuel (set_stack (k :: LTable LUA_RIDX_GLOBALS :: vm_stack vm) vm2))
      by (done || apply lookup_upd || (simpl in Hfuel; lia)).
    rewrite upd_upd. apply Hpop.
Qed.

(** [GlobalNames] never changes the world, whatever the table looks like. *)
Lemma GlobalNames_world fuel s names w w' :
  GlobalNames fuel s w = Done names w' → w' = w.
Proof.
  unfold GlobalNames. destruct (_l s) as [h|] eqn:Hl; [|by intros [= _ <-]].
  destruct (vms w !! h) as [vm|] eqn:Hh.
  - unfold lua_pushglobaltable, lua_pushnil.
    rewrite run_bind, (lua_pushvalue_eq h vm) by done.
    rewrite run_bind. erewrite (lua_pushvalue_eq h) by apply lookup_upd.
    rewrite upd_upd. rewrite run_bind.
    set (vm2 := push LNil (push (LTable LUA_RIDX_GLOBALS) vm)).
    destruct (GlobalNames_loop fuel (Some h) [] (upd h vm2 w)) as [names1 w1|] eqn:Hloop;
      [|done].
    apply (GlobalNames_loop_world fuel h LUA_RIDX_GLOBALS (vm_stack vm) vm2 LNil)
      in Hloop; [|apply lookup_upd|done].
    subst w1. rewrite upd_upd, run_bind. unfold lua_pop.
    erewrite (lua_settop_eq h) by apply lookup_upd.
    simpl. rewrite settop_pop1, upd_upd. unfold set_stack; simpl.
    rewrite vm_eta, upd_same by done. by intros [= _ <-].
  - unfold lua_pushglobaltable, lua_pushvalue_.
    rewrite run_bind, run_bind, get_vm_dead by done. done.
Qed.

End GlobalNamesFacts.

(** ** The claims *)

Section Claims.
Context `{!LuaRuntime}.

Lemma LUA_ERRSYNTAX_not_ok : LUA_ERRSYNTAX ≠ lua_ok.
Proof. rewrite lua_ok_0. done. Qed.

Lemma LUA_ERRFILE_not_ok : LUA_ERRFILE ≠ lua_ok.
Proof. rewrite lua_ok_0. destruct LUA_ERRFILE_cases as [-> | ->]; done. Qed.

Lemma LUA_ERRFILE_not_syntax : LUA_ERRFILE ≠ LUA_ERRSYNTAX.
Proof. destruct LUA_ERRFILE_cases as [-> | ->]; done. Qed.

(** A call that returns leaves the depth of the State's VM unchanged. *)
Lemma perform_depth s h c w w' :
  _l s = Some h → perform s c w = Done () w' → depth h w' = depth h w.
Proof.
  intros Hl Hrun. destruct c as [file|code|modname openf|fuel]; simpl in Hrun.
  - rewrite run_bind in Hrun. destruct (Load s file w) as [b w1|] eqn:E; [|done].
    injection Hrun as <-. unfold Load in E. by eapply guard_depth in E.
  - rewrite run_bind in Hrun. destruct (Execute s code w) as [b w1|] eqn:E; [|done].
    injection Hrun as <-. unfold Execute in E. by eapply guard_depth in E.
  - unfold OpenLib in Hrun. by eapply guard_depth in Hrun.
  - rewrite run_bind in Hrun.
    destruct (GlobalNames fuel s w) as [names w1|] eqn:E; [|done].
    injection Hrun as <-. apply GlobalNames_world in E. by subst.
Qed.

(** C1.  Along any sequence of Load, operator(), OpenLib and GlobalNames
    calls on a State bound to the handle [h], the depth of [h]'s stack just
    before each call equals the depth just after it, whether the call
    reported success or failure. *)
Theorem stack_depth_preserved s h cs w :
  _l s = Some h → Forall (λ p, p.1 = p.2) (depth_log s h cs w).
Proof.
  intros Hl. revert w. induction cs as [|c cs IH]; intros w; simpl; [constructor|].
  destruct (perform s c w) as [[] w'|] eqn:E; [|constructor].
  constructor; [|apply IH]. simpl. symmetry. by eapply perform_depth.
Qed.

(** C2.  When the file fails to compile with a status that is neither the
    success code, nor [LUA_ERRSYNTAX], nor [LUA_ERRFILE], [Load] returns
    false and leaves the world, hence the reporter's record, as it was. *)
Theorem Load_silent_failure s h vm file w :
  _l s = Some h → vms w !! h = Some vm →
  (rt_loadfile vm (c_str file)).1 ≠ lua_ok →
  (rt_loadfile vm (c_str file)).1 ≠ LUA_ERRSYNTAX →
  (rt_loadfile vm (c_str file)).1 ≠ LUA_ERRFILE →
  Load s file w = Done false w.
Proof.
  intros Hl Hh Hok Hsyn Hfile.
  rewrite (Load_compile_failed s h vm file w Hl Hh Hok).
  destruct (decide _) as [|_]; [done|]. by destruct (decide _).
Qed.

(** C3.  operator() runs the text with [luaL_dostring] under the stack
    guard.  If that returns a non-zero status, the reporter is called once,
    with that status and the text of the value [luaL_dostring] left on the
    stack top, and the result is false; if it returns zero the result is
    true and no reporter is called.  Either way the stack is put back. *)
Theorem Execute_reports_top_of_stack s h eh vm code w :
  _l s = Some h → _exception_handler s = Some eh → vms w !! h = Some vm →
  ∃ status vm1,
    luaL_dostring (Some h) code w = Done status (upd h vm1 w) ∧
    let w' := upd h (set_stack (vm_stack vm) vm1) w in
    Execute s code w =
    if decide (status ≠ 0)
    then Done false (log (EvHandle (eh_callback eh) status
                                   (default "" (head (vm_stack vm1) ≫= text_of))) w')
    else Done true w'.
Proof.
  intros Hl Heh Hh.
  rewrite (luaL_dostring_eq h vm) by done.
  rewrite (Execute_cases s h vm) by done. unfold reported. rewrite Heh.
  destruct (decide ((rt_loadstring vm code).1 ≠ 0));
    [|destruct (decide (cr_status _ = 0))].
  - eexists 1, _. split; [done|]. simpl.
    destruct (decide (1 ≠ 0)) as [_|]; [|lia].
    unfold set_stack; simpl. rewrite vm_eta, upd_same by done. reflexivity.
  - eexists 0, _. split; [done|]. simpl.
    destruct (decide (0 ≠ 0)) as [|_]; [lia|]. reflexivity.
  - eexists 1, _. split; [done|]. simpl.
    destruct (decide (1 ≠ 0)) as [_|]; [|lia]. reflexivity.
Qed.

(** C4.  The message [Load] reports is the text on the VM's stack top when
    there is one, as the [const char *] that [lua_tostring] returns shows
    it; when there is none it is the path followed by ": syntax error"
    after a syntax-error compile status, by ": file error" after a
    file-error compile status, and by ": dofile failed" after the chunk
    failed to run. *)
Theorem Load_fallback_messages s h eh vm file w :
  _l s = Some h → _exception_handler s = Some eh → vms w !! h = Some vm →
  let status := (rt_loadfile vm (c_str file)).1 in
  let top := (rt_loadfile vm (c_str file)).2 in
  let cr := rt_call vm top [] in
  (status = LUA_ERRSYNTAX →
   Load s file w =
   Done false (log (EvHandle (eh_callback eh) status
                             (default (file +:+ ": syntax error")
                                      (c_str <$> text_of top))) w)) ∧
  (status = LUA_ERRFILE →
   Load s file w =
   Done false (log (EvHandle (eh_callback eh) status
                             (default (file +:+ ": file error")
                                      (c_str <$> text_of top))) w)) ∧
  (status = lua_ok → cr_status cr ≠ lua_ok →
   Load s file w =
   Done false (log (EvHandle (eh_callback eh) (cr_status cr)
                             (default (file +:+ ": dofile failed")
                                      (c_str <$> text_of (cr_error cr))))
                   (upd h (mk_vm (vm_stack vm) (cr_tables cr)) w))).
Proof.
  intros Hl Heh Hh status top cr. repeat split.
  - intros Hs. rewrite (Load_compile_failed s h vm file w Hl Hh).
    + fold status top. destruct (decide _); [|done].
      unfold reported. by rewrite Heh.
    + fold status. rewrite Hs. apply LUA_ERRSYNTAX_not_ok.
  - intros Hs. rewrite (Load_compile_failed s h vm file w Hl Hh).
    + fold status top. destruct (decide _) as [Hsyn|_].
      { rewrite Hs in Hsyn. by apply LUA_ERRFILE_not_syntax in Hsyn. }
      destruct (decide _); [|done]. unfold reported. by rewrite Heh.
    + fold status. rewrite Hs. apply LUA_ERRFILE_not_ok.
  - intros Hs Hrun. rewrite (Load_compiled s h vm file w Hl Hh Hs).
    fold top cr. destruct (decide _); [done|].
    unfold reported. by rewrite Heh.
Qed.

(** C6.  The destructor of a State that owns a live handle collects
    garbage and then closes the handle, in that order; the destructor of a
    State that does not own its handle, or whose handle is null, closes
    nothing and calls nothing. *)
Theorem State_delete_finalizes this s w :
  objs w !! this = Some s →
  (∀ h vm, _l s = Some h → _l_owner s = true → vms w !! h = Some vm →
     State_delete this w =
     Done () (mk_world (delete h (vms w)) (delete this (objs w))
                       (trace w ++ [EvGC h LUA_GCCOLLECT 0; EvClose h]))) ∧
  (_l_owner s = false →
     State_delete this w = Done () (mk_world (vms w) (delete this (objs w)) (trace w))) ∧
  (_l s = None →
     State_delete this w = Done () (mk_world (vms w) (delete this (objs w)) (trace w))).
Proof.
  intros Hobj. unfold State_delete, get_obj.
  rewrite run_bind, Hobj. unfold State_finalize. repeat split.
  - intros h vm Hl Hown Hh. rewrite Hl, Hown.
    destruct (decide _) as [_|Hn]; [|destruct Hn; done].
    unfold ForceGC. rewrite Hl.
    rewrite !run_bind, (lua_gc_eq h vm) by done.
    rewrite (lua_close_eq h vm) by done.
    unfold del_obj; simpl. by rewrite <- app_assoc.
  - intros Hown. rewrite Hown.
    destruct (decide _) as [[_ ?]|_]; [done|]. reflexivity.
  - intros Hl. rewrite Hl.
    destruct (decide _) as [[? _]|_]; [done|]. reflexivity.
Qed.

(** C8.  With no handle bound, GlobalNames returns the empty list.  With a
    live handle it returns, in the order of the global table, the text of
    each string key, as the [const char *] that [lua_tostring] returns
    shows it, and the "%g" rendering of each number key, and nothing for a
    key of any other type; in both cases the world, stack and global table
    included, is as before. *)
Theorem GlobalNames_lists_string_and_number_keys fuel s w :
  (_l s = None → GlobalNames fuel s w = Done [] w) ∧
  (∀ h vm t,
     _l s = Some h → vms w !! h = Some vm →
     vm_tables vm !! LUA_RIDX_GLOBALS = Some t → table_wf t →
     (length t < fuel)%nat →
     GlobalNames fuel s w = Done (concat (name_of_key <$> t.*1)) w).
Proof.
  split.
  - intros Hl. unfold GlobalNames. by rewrite Hl.
  - intros h vm t. apply GlobalNames_live.
Qed.


End Claims.

(** C10.  Move-assigning a State to itself changes nothing: the world, and
    with it the object's four members and every later call, is as before. *)
Theorem State_move_assign_self this w :
  State_move_assign this this w = Done () w.
Proof. unfold State_move_assign. by destruct (decide (this = this)). Qed.

(** ** The claims on the demo program *)

Lemma stack_depth_preserved_witness :
  _l Demo.s = Some 1%positive ∧
  Forall (λ p, p.1 = p.2)
         (@depth_log Demo.lua53 Demo.s 1%positive Demo.calls Demo.w).
Proof.
  split; [reflexivity|].
  apply (@stack_depth_preserved Demo.lua53 Demo.s 1%positive Demo.calls Demo.w).
  reflexivity.
Defined.

(** All six calls of the demo return, each at depth 1 before and after. *)
Example demo_depth_log :
  @depth_log Demo.lua53 Demo.s 1%positive Demo.calls Demo.w
  = replicate 6 (Some 1, Some 1).
Proof. vm_compute. reflexivity. Qed.

Lemma Load_silent_failure_witness :
  (_l Demo.s = Some 1%positive ∧ vms Demo.w !! 1%positive = Some Demo.vm ∧
   (@rt_loadfile Demo.lua53 Demo.vm "oom.lua").1 ≠ @lua_ok Demo.lua53 ∧
   (@rt_loadfile Demo.lua53 Demo.vm "oom.lua").1 ≠ LUA_ERRSYNTAX ∧
   (@rt_loadfile Demo.lua53 Demo.vm "oom.lua").1 ≠ @LUA_ERRFILE Demo.lua53) ∧
  @Load Demo.lua53 Demo.s "oom.lua" Demo.w = Done false Demo.w.
Proof.
  assert (_l Demo.s = Some 1%positive) as H1 by reflexivity.
  assert (vms Demo.w !! 1%positive = Some Demo.vm) as H2 by reflexivity.
  assert ((@rt_loadfile Demo.lua53 Demo.vm "oom.lua").1 ≠ @lua_ok Demo.lua53) as H3
    by (vm_compute; discriminate).
  assert ((@rt_loadfile Demo.lua53 Demo.vm "oom.lua").1 ≠ LUA_ERRSYNTAX) as H4
    by (vm_compute; discriminate).
  assert ((@rt_loadfile Demo.lua53 Demo.vm "oom.lua").1 ≠ @LUA_ERRFILE Demo.lua53) as H5
    by (vm_compute; discriminate).
  split; [tauto|].
  exact (@Load_silent_failure Demo.lua53 Demo.s 1%positive Demo.vm "oom.lua" Demo.w
           H1 H2 H3 H4 H5).
Defined.

Lemma Execute_reports_top_of_stack_witness :
  (_l Demo.s = Some 1%positive ∧
   _exception_handler Demo.s = Some (mk_ExceptionHandler (HostCallback 7)) ∧
   vms Demo.w !! 1%positive = Some Demo.vm) ∧
  ∃ status vm1,
    @luaL_dostring Demo.lua53 (Some 1%positive) "x = = 1" Demo.w
    = Done status (upd 1%positive vm1 Demo.w) ∧
    let w' := upd 1%positive (set_stack (vm_stack Demo.vm) vm1) Demo.w in
    @Execute Demo.lua53 Demo.s "x = = 1" Demo.w =
    if decide (status ≠ 0)
    then Done false (log (EvHandle (HostCallback 7) status
                            (default "" (head (vm_stack vm1) ≫= @text_of Demo.lua53))) w')
    else Done true w'.
Proof.
  split; [by repeat split|].
  apply (@Execute_reports_top_of_stack Demo.lua53 Demo.s 1%positive
           (mk_ExceptionHandler (HostCallback 7)) Demo.vm "x = = 1" Demo.w);
    reflexivity.
Defined.

(** On the demo: a broken text is reported once, with status 1 and the
    compiler's message; a text that runs is not reported. *)
Example demo_Execute_fails :
  @Execute Demo.lua53 Demo.s "x = = 1" Demo.w
  = Done false (log (EvHandle (HostCallback 7) 1 "syntax error near <eof>") Demo.w).
Proof. vm_compute. reflexivity. Qed.

Example demo_Execute_succeeds :
  @Execute Demo.lua53 Demo.s "return 1+1" Demo.w = Done true Demo.w.
Proof. vm_compute. reflexivity. Qed.

Lemma Load_fallback_messages_witness :
  (_l Demo.s = Some 1%positive ∧
   _exception_handler Demo.s = Some (mk_ExceptionHandler (HostCallback 7)) ∧
   vms Demo.w !! 1%positive = Some Demo.vm) ∧
  @Load Demo.lua53 Demo.s "mute.lua" Demo.w
  = Done false (log (EvHandle (HostCallback 7) 3 "mute.lua: syntax error") Demo.w) ∧
  @Load Demo.lua53 Demo.s "gone.lua" Demo.w
  = Done false (log (EvHandle (HostCallback 7) 7 "gone.lua: file error") Demo.w) ∧
  @Load Demo.lua53 Demo.s "boom.lua" Demo.w
  = Done false (log (EvHandle (HostCallback 7) 2 "boom.lua: dofile failed") Demo.w) ∧
  @Load Demo.lua53 Demo.s "bad.lua" Demo.w
  = Done false (log (EvHandle (HostCallback 7) 3 "bad.lua:1: unexpected symbol") Demo.w) ∧
  @Load Host.lua53_raising Demo.s "any.lua" Demo.w
  = Done false (log (EvHandle (HostCallback 7) 2 "a") Demo.w).
Proof.
  assert (_l Demo.s = Some 1%positive) as H1 by reflexivity.
  assert (_exception_handler Demo.s = Some (mk_ExceptionHandler (HostCallback 7)))
    as H2 by reflexivity.
  assert (vms Demo.w !! 1%positive = Some Demo.vm) as H3 by reflexivity.
  split; [tauto|].
  pose proof (λ file, @Load_fallback_messages Demo.lua53 Demo.s 1%positive _
                        Demo.vm file Demo.w H1 H2 H3) as L.
  pose proof (@Load_fallback_messages Host.lua53_raising Demo.s 1%positive _
                Demo.vm "any.lua" Demo.w H1 H2 H3) as L'.
  split; [|split; [|split; [|split]]].
  - exact (proj1 (L "mute.lua") eq_refl).
  - exact (proj1 (proj2 (L "gone.lua")) eq_refl).
  - refine (proj2 (proj2 (L "boom.lua")) eq_refl _). vm_compute; discriminate.
  - exact (proj1 (L "bad.lua") eq_refl).
  - refine (eq_trans (proj2 (proj2 L') eq_refl _) _); [vm_compute; discriminate|].
    vm_compute. reflexivity.
Defined.

Lemma State_delete_finalizes_witness :
  objs Demo.w_obj !! 5%positive = Some Demo.s ∧
  (_l Demo.s = Some 1%positive ∧ _l_owner Demo.s = true ∧
   vms Demo.w_obj !! 1%positive = Some Demo.vm) ∧
  State_delete 5%positive Demo.w_obj
  = Done () (mk_world (delete 1%positive (vms Demo.w_obj))
                      (delete 5%positive (objs Demo.w_obj))
                      [EvGC 1%positive LUA_GCCOLLECT 0; EvClose 1%positive]).
Proof.
  assert (objs Demo.w_obj !! 5%positive = Some Demo.s) as H0 by reflexivity.
  split; [exact H0|]. split; [by repeat split|].
  exact (proj1 (State_delete_finalizes 5%positive Demo.s Demo.w_obj H0)
               1%positive Demo.vm eq_refl eq_refl eq_refl).
Defined.

(** A State that borrows the same VM leaves it open. *)
Example demo_borrower_deleted :
  (State_attach 6%positive (Some 1%positive);; State_delete 6%positive) Demo.w_obj
  = Done () Demo.w_obj.
Proof. vm_compute. reflexivity. Qed.

Lemma GlobalNames_lists_string_and_number_keys_witness :
  (_l Demo.s = Some 1%positive ∧ vms Demo.w !! 1%positive = Some Demo.vm ∧
   vm_tables Demo.vm !! LUA_RIDX_GLOBALS = Some Demo.globals ∧
   table_wf Demo.globals ∧ (length Demo.globals < 5)%nat) ∧
  @GlobalNames Demo.lua53 5 Demo.s Demo.w = Done ["print"; "42"; "_G"] Demo.w ∧
  @GlobalNames Demo.lua53 5 Demo.s Host.w_nul = Done ["a"; "a"] Host.w_nul.
Proof.
  assert (table_wf Demo.globals) as Hwf.
  { split; [apply (bool_decide_unpack _)|apply (bool_decide_unpack _)];
      vm_compute; reflexivity. }
  assert (length Demo.globals < 5)%nat as Hlen by (simpl; lia).
  split; [split; [reflexivity|split; [reflexivity|split; [reflexivity|by split]]]|].
  split.
  - exact (proj2 (@GlobalNames_lists_string_and_number_keys Demo.lua53 5 Demo.s Demo.w)
                 1%positive Demo.vm Demo.globals eq_refl eq_refl eq_refl Hwf Hlen).
  - assert (table_wf [(LString Host.a_nul_b, LNumber Demo.one);
                      (LString Host.a_nul_c, LNumber Demo.two)]) as Hwf'.
    { split; [apply (bool_decide_unpack _)|apply (bool_decide_unpack _)];
        vm_compute; reflexivity. }
    refine (proj2 (@GlobalNames_lists_string_and_number_keys Demo.lua53 5 Demo.s
                     Host.w_nul)
                  1%positive Host.vm_nul _ eq_refl eq_refl eq_refl Hwf' _).
    simpl; lia.
Defined.



(** C5.  After [State b(std::move(a))] the new State has no
    ExceptionHandler: the failing operator() that the original reports and
    answers with false ends in a null dereference on the moved-to State.
    On the moved-from State, Load reaches the Lua API with a null handle. *)
Theorem moved_State_cannot_report :
  (∃ w, Demo.original Demo.nothing = Done false w ∧
        trace w = [EvHandle PrintToStdOut 1 "syntax error near <eof>"]) ∧
  Demo.moved_to Demo.nothing = Fault NullExceptionHandler ∧
  Demo.moved_from Demo.nothing = Fault NullState.
Proof.
  split; [|split].
  - eexists. split; vm_compute; reflexivity.
  - vm_compute; reflexivity.
  - vm_compute; reflexivity.
Qed.

(** C7.  Move-assignment into a State that owns a live handle drops that
    handle without closing it: after both States are destroyed, the first
    VM is still open and no [lua_close] was ever issued for it. *)
Theorem move_assign_leaks_owned_handle :
  ∃ w vm,
    Demo.assign_over_owner Demo.nothing = Done () w ∧
    objs w = ∅ ∧
    vms w !! 1%positive = Some vm ∧
    trace w = [EvGC 2%positive LUA_GCCOLLECT 0; EvClose 2%positive].
Proof.
  eexists _, _. split; [vm_compute; reflexivity|].
  split; [|split]; vm_compute; reflexivity.
Qed.

(** ** Construction, moves and destruction *)

Section Lifecycle.
Context `{!LuaRuntime}.

Lemma get_obj_eq this s w : objs w !! this = Some s → get_obj this w = Done s w.
Proof. intros Ho. unfold get_obj. by rewrite Ho. Qed.

Lemma on_object_eq {A} this s (method : State → M A) w :
  objs w !! this = Some s → on_object this method w = method s w.
Proof. intros Ho. unfold on_object. by rewrite run_bind, (get_obj_eq this s). Qed.

Lemma set_obj_eq this s w :
  set_obj this s w = Done () (mk_world (vms w) (<[this := s]> (objs w)) (trace w)).
Proof. reflexivity. Qed.

Lemma luaL_newstate_ok w :
  rt_newstate (vms w) = true →
  luaL_newstate w =
  Done (Some (fresh (dom (vms w))))
       (mk_world (<[fresh (dom (vms w)) := mk_vm [] {[LUA_RIDX_GLOBALS := []]}]> (vms w))
                 (objs w) (trace w)).
Proof. intros Hnew. unfold luaL_newstate. by rewrite Hnew. Qed.

Lemma luaL_newstate_null w :
  rt_newstate (vms w) = false → luaL_newstate w = Done None w.
Proof. intros Hnew. unfold luaL_newstate. by rewrite Hnew. Qed.

Lemma HandleExceptionsWith_eq this s eh handler w :
  objs w !! this = Some s → _exception_handler s = Some eh →
  HandleExceptionsWith this handler w =
  Done () (mk_world (vms w)
                    (<[this := mk_State (_l s) (_l_owner s) (_registry s)
                                        (Some (mk_ExceptionHandler handler))]> (objs w))
                    (trace w)).
Proof.
  intros Ho Heh. unfold HandleExceptionsWith.
  rewrite run_bind, (get_obj_eq this s) by done. by rewrite Heh.
Qed.

Lemma HandleExceptionsPrintingToStdOut_eq this s eh w :
  objs w !! this = Some s → _exception_handler s = Some eh →
  HandleExceptionsPrintingToStdOut this w =
  Done () (mk_world (vms w)
                    (<[this := mk_State (_l s) (_l_owner s) (_registry s)
                                        (Some (mk_ExceptionHandler PrintToStdOut))]> (objs w))
                    (trace w)).
Proof.
  intros Ho Heh. unfold HandleExceptionsPrintingToStdOut.
  rewrite run_bind, (get_obj_eq this s) by done. by rewrite Heh.
Qed.

(** [State(bool)] when the allocator gives a VM. *)
Lemma State_new_eq this should_open_libs w :
  rt_newstate (vms w) = true →
  let h := fresh (dom (vms w)) in
  State_new this should_open_libs w =
  Done () (mk_world (<[h := new_vm should_open_libs]> (vms w))
                    (<[this := constructed (Some h) true]> (objs w))
                    (trace w)).
Proof.
  intros Hnew h. unfold State_new.
  rewrite run_bind, set_obj_eq, run_bind, luaL_newstate_ok by done.
  cbn [vms objs trace]. fold h.
  rewrite run_bind, set_obj_eq. cbn [vms objs trace].
  rewrite insert_insert_eq.
  assert ((if should_open_libs then luaL_openlibs (Some h) else skip)
            (mk_world (<[h := mk_vm [] {[LUA_RIDX_GLOBALS := []]}]> (vms w))
               (<[this := mk_State (Some h) true None
                            (Some (mk_ExceptionHandler EmptyCallback))]> (objs w))
               (trace w))
          = Done () (mk_world (<[h := new_vm should_open_libs]> (vms w))
               (<[this := mk_State (Some h) true None
                            (Some (mk_ExceptionHandler EmptyCallback))]> (objs w))
               (trace w))) as Hlibs.
  { unfold new_vm. destruct should_open_libs; [|done].
    unfold luaL_openlibs.
    erewrite (run_get_vm h) by (cbn [vms]; apply lookup_insert_eq).
    rewrite put_vm_upd. unfold upd. cbn [vms objs trace vm_stack vm_tables].
    by rewrite insert_insert_eq. }
  rewrite run_bind, Hlibs, run_bind, set_obj_eq. cbn [vms objs trace].
  rewrite insert_insert_eq.
  erewrite HandleExceptionsPrintingToStdOut_eq
    by (cbn [objs]; first [apply lookup_insert_eq|done]).
  cbn [vms objs trace _l _l_owner _registry]. by rewrite insert_insert_eq.
Qed.

(** [State(bool)] when the allocator gives none: [throw 0]. *)
Lemma State_new_throws this should_open_libs w :
  rt_newstate (vms w) = false →
  State_new this should_open_libs w = Fault (Thrown 0).
Proof.
  intros Hnew. unfold State_new.
  rewrite run_bind, set_obj_eq, run_bind, luaL_newstate_null by done.
  by rewrite run_bind, set_obj_eq.
Qed.

(** [State(lua_State *l)]. *)
Lemma State_attach_eq this l w :
  State_attach this l w =
  Done () (mk_world (vms w) (<[this := constructed l false]> (objs w)) (trace w)).
Proof.
  unfold State_attach. rewrite run_bind, set_obj_eq.
  erewrite HandleExceptionsPrintingToStdOut_eq
    by (cbn [objs]; first [apply lookup_insert_eq|done]).
  cbn [vms objs trace _l _l_owner _registry]. by rewrite insert_insert_eq.
Qed.

(** [~State()] on an object, by the three cases of its test. *)
Lemma State_delete_eq this s w :
  objs w !! this = Some s →
  State_delete this w =
  match _l s with
  | Some h =>
      if _l_owner s then
        match vms w !! h with
        | Some _ => Done () (mk_world (delete h (vms w)) (delete this (objs w))
                                      (trace w ++ [EvGC h LUA_GCCOLLECT 0; EvClose h]))
        | None => Fault DeadState
        end
      else Done () (mk_world (vms w) (delete this (objs w)) (trace w))
  | None => Done () (mk_world (vms w) (delete this (objs w)) (trace w))
  end.
Proof.
  intros Ho. unfold State_delete.
  rewrite run_bind, (get_obj_eq this s) by done.
  unfold State_finalize. destruct (_l s) as [h|] eqn:Hl.
  - destruct (_l_owner s) eqn:Hown.
    + destruct (decide _) as [_|Hn]; [|by destruct Hn].
      unfold ForceGC. rewrite Hl.
      destruct (vms w !! h) as [vm|] eqn:Hh.
      * rewrite !run_bind, (lua_gc_eq h vm) by done.
        rewrite (lua_close_eq h vm) by done.
        unfold del_obj; simpl. by rewrite <- app_assoc.
      * rewrite !run_bind. unfold lua_gc. rewrite run_bind. simpl.
        by rewrite run_bind, get_vm_dead.
    + destruct (decide _) as [[_ ?]|_]; [done|]. reflexivity.
  - destruct (decide _) as [[? _]|_]; [done|]. reflexivity.
Qed.

(** [State(State &&other)]. *)
Lemma State_move_eq this other o w :
  objs w !! other = Some o →
  State_move this other w =
  Done () (mk_world (vms w)
                    (<[other := mk_State None (_l_owner o) None (_exception_handler o)]>
                       (<[this := mk_State (_l o) (_l_owner o) (_registry o) None]> (objs w)))
                    (trace w)).
Proof.
  intros Ho. unfold State_move.
  by rewrite run_bind, (get_obj_eq other o).
Qed.

(** [operator=(State &&other)] between two different objects. *)
Lemma State_move_assign_eq this other o t w :
  other ≠ this → objs w !! other = Some o → objs w !! this = Some t →
  State_move_assign this other w =
  Done () (mk_world (vms w)
                    (<[other := mk_State None (_l_owner o) None (_exception_handler o)]>
                       (<[this := mk_State (_l o) (_l_owner o) (_registry o)
                                           (_exception_handler t)]> (objs w)))
                    (trace w)).
Proof.
  intros Hne Ho Ht. unfold State_move_assign.
  destruct (decide (other = this)); [done|].
  rewrite run_bind, (get_obj_eq other o) by done.
  by rewrite run_bind, (get_obj_eq this t).
Qed.

(** X1.  [State(bool)] is settled by the allocator alone: with a VM it
    leaves an owning State around a handle no VM had, with a Registry for
    it and the printing reporter, on an empty stack; without one it throws
    and nothing else happens. *)
Theorem State_new_constructs_or_throws this should_open_libs w :
  (vms w !! fresh (dom (vms w)) = None) ∧
  State_new this should_open_libs w =
  if rt_newstate (vms w)
  then Done () (mk_world (<[fresh (dom (vms w)) := new_vm should_open_libs]> (vms w))
                         (<[this := constructed (Some (fresh (dom (vms w)))) true]> (objs w))
                         (trace w))
  else Fault (Thrown 0).
Proof.
  split; [apply not_elem_of_dom, is_fresh|].
  destruct (rt_newstate (vms w)) eqn:Hnew.
  - by apply State_new_eq.
  - by apply State_new_throws.
Qed.

(** X2.  A State that is constructed and then destroyed opens one VM and
    closes it again: the VMs are those from before, and the only events
    are the collection and the close of the new handle. *)
Theorem State_new_then_delete this should_open_libs w :
  rt_newstate (vms w) = true →
  (State_new this should_open_libs;; State_delete this) w =
  Done () (mk_world (vms w) (delete this (objs w))
                    (trace w ++ [EvGC (fresh (dom (vms w))) LUA_GCCOLLECT 0;
                                 EvClose (fresh (dom (vms w)))])).
Proof.
  intros Hnew. rewrite run_bind, State_new_eq by done.
  erewrite State_delete_eq by (cbn [objs]; apply lookup_insert_eq).
  cbn [constructed _l _l_owner vms objs trace].
  rewrite lookup_insert_eq, (delete_insert_eq (objs w)).
  rewrite (delete_insert_id (vms w)) by apply not_elem_of_dom, is_fresh.
  reflexivity.
Qed.

(** X3.  A State made around a caller's handle and then destroyed changes
    nothing, whatever the handle is: null, open or already closed. *)
Theorem State_attach_then_delete this l w :
  objs w !! this = None →
  (State_attach this l;; State_delete this) w = Done () w.
Proof.
  intros Hfree. rewrite run_bind, State_attach_eq.
  erewrite State_delete_eq by (cbn [objs]; apply lookup_insert_eq).
  cbn [constructed _l _l_owner vms objs trace].
  rewrite delete_insert_id by done.
  destruct l; by rewrite world_eta.
Qed.

(** X4.  After move construction the moved-from State's destructor does
    nothing, and the moved-to State's destructor then collects and closes
    the handle: the handle is closed once. *)
Theorem move_construct_closes_once this other o h vm w :
  this ≠ other → objs w !! other = Some o → owns o h → vms w !! h = Some vm →
  (State_move this other;; State_delete other) w =
  Done () (mk_world (vms w)
                    (<[this := mk_State (Some h) true (_registry o) None]>
                       (delete other (objs w)))
                    (trace w)) ∧
  (State_move this other;; State_delete other;; State_delete this) w =
  Done () (mk_world (delete h (vms w)) (delete this (delete other (objs w)))
                    (trace w ++ [EvGC h LUA_GCCOLLECT 0; EvClose h])).
Proof.
  intros Hne Ho [Hl Hown] Hh.
  assert ((State_move this other;; State_delete other) w =
          Done () (mk_world (vms w)
                    (<[this := mk_State (Some h) true (_registry o) None]>
                       (delete other (objs w)))
                    (trace w))) as Hfirst.
  { rewrite run_bind, (State_move_eq this other o) by done.
    erewrite State_delete_eq by (cbn [objs]; apply lookup_insert_eq).
    cbn [_l vms objs trace]. rewrite Hl, Hown.
    by rewrite delete_insert_eq, delete_insert_ne. }
  split; [done|].
  change ((State_move this other;; State_delete other;; State_delete this) w)
    with (match State_move this other w with
          | Done _ w1 => (State_delete other;; State_delete this) w1
          | Fault f => Fault f
          end).
  rewrite run_bind in Hfirst.
  destruct (State_move this other w) as [[] w1|]; [|done].
  rewrite run_bind, Hfirst.
  erewrite State_delete_eq by (cbn [objs]; apply lookup_insert_eq).
  cbn [_l _l_owner vms objs trace]. rewrite Hh.
  by rewrite delete_insert_eq.
Qed.

(** X5.  After [a = std::move(b)] and the destruction of both States,
    the handle [b] owned has been collected and closed once and that is all
    that happened: whatever handle [a] held before is not closed by either
    destructor. *)
Theorem move_assign_closes_source_only this other o t h vm w :
  this ≠ other → objs w !! other = Some o → objs w !! this = Some t →
  owns o h → vms w !! h = Some vm →
  (State_move_assign this other;; State_delete other;; State_delete this) w =
  Done () (mk_world (delete h (vms w)) (delete this (delete other (objs w)))
                    (trace w ++ [EvGC h LUA_GCCOLLECT 0; EvClose h])).
Proof.
  intros Hne Ho Ht [Hl Hown] Hh.
  rewrite run_bind, (State_move_assign_eq this other o t) by done.
  rewrite run_bind.
  erewrite State_delete_eq by (cbn [objs]; apply lookup_insert_eq).
  cbn [_l vms objs trace].
  erewrite State_delete_eq
    by (cbn [objs]; rewrite delete_insert_eq, lookup_delete_ne, lookup_insert_eq by done;
        reflexivity).
  cbn [_l _l_owner vms objs trace]. rewrite Hl, Hown, Hh.
  by rewrite delete_insert_eq, delete_insert_ne, delete_insert_eq.
Qed.

End Lifecycle.

(** ** Reporting, and calls outside the normal case *)

Section Reporting.
Context `{!LuaRuntime}.

Lemma guard_null {A} (body : M A) w :
  ResetStackOnScopeExit None body w = Fault NullState.
Proof. reflexivity. Qed.

Lemma guard_dead {A} h (body : M A) w :
  vms w !! h = None → ResetStackOnScopeExit (Some h) body w = Fault DeadState.
Proof.
  intros Hh. unfold ResetStackOnScopeExit, lua_gettop.
  by rewrite run_bind, run_bind, get_vm_dead.
Qed.

(** A text that does not compile, or compiles and fails, is reported with
    status 1 to the State's callback, and the result is false. *)
Lemma Execute_failure_reported s h eh vm code w :
  _l s = Some h → _exception_handler s = Some eh → vms w !! h = Some vm →
  (rt_loadstring vm code).1 ≠ 0 ∨
  cr_status (rt_call vm (rt_loadstring vm code).2 []) ≠ 0 →
  ∃ msg w', Execute s code w = Done false w' ∧
            trace w' = trace w ++ [EvHandle (eh_callback eh) 1 msg] ∧
            objs w' = objs w.
Proof.
  intros Hl Heh Hh Hfail. rewrite (Execute_cases s h vm code w Hl Hh).
  unfold reported. rewrite Heh.
  destruct (decide _) as [Hc|Hc]; [by eexists _, _|].
  destruct (decide _) as [Hr|Hr]; [|by eexists _, _].
  destruct Hfail; [|done]. by destruct Hc.
Qed.

(** X6.  Move assignment does not move the reporter: after
    [a = std::move(b)] a failing text run on [a] over [b]'s former handle is
    reported to the callback [a] had before, never to [b]'s. *)
Theorem move_assign_keeps_own_reporter this other o t h eh vm code w :
  this ≠ other → objs w !! other = Some o → objs w !! this = Some t →
  _l o = Some h → vms w !! h = Some vm → _exception_handler t = Some eh →
  (rt_loadstring vm code).1 ≠ 0 ∨
  cr_status (rt_call vm (rt_loadstring vm code).2 []) ≠ 0 →
  ∃ msg w',
    (State_move_assign this other;; on_object this (λ s, Execute s code)) w
    = Done false w' ∧
    trace w' = trace w ++ [EvHandle (eh_callback eh) 1 msg].
Proof.
  intros Hne Ho Ht Hl Hh Heh Hfail.
  rewrite run_bind, (State_move_assign_eq this other o t) by done.
  erewrite on_object_eq
    by (cbn [objs]; rewrite lookup_insert_ne, lookup_insert_eq by done; reflexivity).
  edestruct (Execute_failure_reported
               (mk_State (_l o) (_l_owner o) (_registry o) (_exception_handler t))
               h eh vm code) as (msg & w' & -> & Htr & _); [done..|].
  by exists msg, w'.
Qed.

(** X7.  [HandleExceptionsWith] replaces the reporter: the next failing
    text is reported to the new callback and the old one is not called. *)
Theorem HandleExceptionsWith_replaces_reporter this s h eh vm handler code w :
  objs w !! this = Some s → _l s = Some h → _exception_handler s = Some eh →
  vms w !! h = Some vm →
  (rt_loadstring vm code).1 ≠ 0 ∨
  cr_status (rt_call vm (rt_loadstring vm code).2 []) ≠ 0 →
  ∃ msg w',
    (HandleExceptionsWith this handler;; on_object this (λ s, Execute s code)) w
    = Done false w' ∧
    trace w' = trace w ++ [EvHandle handler 1 msg].
Proof.
  intros Ho Hl Heh Hh Hfail.
  rewrite run_bind, (HandleExceptionsWith_eq this s eh) by done.
  erewrite on_object_eq by (cbn [objs]; apply lookup_insert_eq).
  edestruct (Execute_failure_reported
               (mk_State (_l s) (_l_owner s) (_registry s)
                         (Some (mk_ExceptionHandler handler)))
               h (mk_ExceptionHandler handler) vm code) as (msg & w' & -> & Htr & _);
    [done..|].
  by exists msg, w'.
Qed.

(** X8.  A move-constructed State cannot be given a reporter either:
    [HandleExceptionsWith] assigns through the null pointer. *)
Theorem moved_to_State_cannot_install_reporter this other o handler w :
  this ≠ other → objs w !! other = Some o →
  (State_move this other;; HandleExceptionsWith this handler) w
  = Fault NullExceptionHandler ∧
  (State_move this other;; HandleExceptionsPrintingToStdOut this) w
  = Fault NullExceptionHandler.
Proof.
  intros Hne Ho. split.
  - rewrite run_bind, (State_move_eq this other o) by done.
    unfold HandleExceptionsWith. rewrite run_bind.
    erewrite get_obj_eq
      by (cbn [objs]; rewrite lookup_insert_ne, lookup_insert_eq by done; reflexivity).
    reflexivity.
  - rewrite run_bind, (State_move_eq this other o) by done.
    unfold HandleExceptionsPrintingToStdOut. rewrite run_bind.
    erewrite get_obj_eq
      by (cbn [objs]; rewrite lookup_insert_ne, lookup_insert_eq by done; reflexivity).
    reflexivity.
Qed.

(** X9.  [InteractiveDebug] runs its text without the stack guard and
    without the reporter: what the run pushed, one error value or the
    values returned, is still on the stack afterwards, as [Size] shows,
    and nothing is reported. *)
Theorem InteractiveDebug_leaves_values_on_stack s h vm w :
  _l s = Some h → vms w !! h = Some vm →
  let st := (rt_loadstring vm "debug.debug()").1 in
  let cr := rt_call vm (rt_loadstring vm "debug.debug()").2 [] in
  let kept := if decide (st ≠ 0) then 1
              else if decide (cr_status cr = 0) then Z.of_nat (length (cr_values cr))
              else 1 in
  ∃ w', (InteractiveDebug s;; Size s) w
        = Done (Z.of_nat (length (vm_stack vm)) + kept) w' ∧
        trace w' = trace w.
Proof.
  intros Hl Hh st cr kept. unfold InteractiveDebug, Size. rewrite Hl.
  rewrite !run_bind, (luaL_dostring_eq h vm) by done.
  fold st cr. unfold kept.
  destruct (decide (st ≠ 0)); [|destruct (decide (cr_status cr = 0))];
    unfold mret, M_ret; cbn beta iota;
    (erewrite lua_gettop_eq by apply lookup_upd); eexists;
    (split;
     [match goal with
      | |- Done ?a _ = Done ?b _ => replace a with b; [reflexivity|]
      end;
      cbn [vm_stack push set_stack length]; unfold push_results;
      rewrite ?length_app, ?length_rev; lia
     |reflexivity]).
Qed.

End Reporting.

(** ** More about Load, OpenLib and GlobalNames *)

Section Calls.
Context `{!LuaRuntime}.

(** [Load] on any State, live or not, by the stage at which it ends. *)
Lemma Load_outcomes s file w b w' :
  Load s file w = Done b w' →
  ∃ h vm, _l s = Some h ∧ vms w !! h = Some vm ∧
    let status := (rt_loadfile vm (c_str file)).1 in
    let cr := rt_call vm (rt_loadfile vm (c_str file)).2 [] in
    (status ≠ lua_ok ∧ b = false ∧
       (w' = w ∨ ∃ eh msg, _exception_handler s = Some eh ∧
                           w' = log (EvHandle (eh_callback eh) status msg) w)) ∨
    (status = lua_ok ∧
       let w1 := upd h (mk_vm (vm_stack vm) (cr_tables cr)) w in
       (cr_status cr = lua_ok ∧ b = true ∧ w' = w1) ∨
       (cr_status cr ≠ lua_ok ∧ b = false ∧
        ∃ eh msg, _exception_handler s = Some eh ∧
                  w' = log (EvHandle (eh_callback eh) (cr_status cr) msg) w1)).
Proof.
  intros Hrun. destruct (_l s) as [h|] eqn:Hl;
    [|unfold Load in Hrun; by rewrite Hl, guard_null in Hrun].
  destruct (vms w !! h) as [vm|] eqn:Hh;
    [|unfold Load in Hrun; by rewrite Hl, guard_dead in Hrun].
  exists h, vm. split; [done|]. split; [done|]. cbn zeta.
  destruct (decide ((rt_loadfile vm (c_str file)).1 = lua_ok)) as [Hs|Hs].
  - right. split; [done|].
    rewrite (Load_compiled s h vm file w Hl Hh Hs) in Hrun.
    destruct (decide _) as [Hr|Hr].
    + left. by injection Hrun as <- <-.
    + right. unfold reported in Hrun.
      destruct (_exception_handler s) as [eh|]; [|done].
      injection Hrun as <- <-. split; [done|]. split; [done|]. by eexists _, _.
  - left. split; [done|].
    rewrite (Load_compile_failed s h vm file w Hl Hh Hs) in Hrun.
    unfold reported in Hrun.
    destruct (decide _); [|destruct (decide _)];
      try (destruct (_exception_handler s) as [eh|]; [|done]);
      injection Hrun as <- <-; (split; [done|]); [right|right|left];
      try done; by eexists _, _.
Qed.

(** X10.  One [Load] calls the reporter at most once, never when it
    returns true, and touches no State object. *)
Theorem Load_reports_at_most_once s file w b w' :
  Load s file w = Done b w' →
  objs w' = objs w ∧
  (b = true → trace w' = trace w) ∧
  (trace w' = trace w ∨ ∃ cb code msg, trace w' = trace w ++ [EvHandle cb code msg]).
Proof.
  intros Hrun. apply Load_outcomes in Hrun as (h & vm & _ & _ & Hcases).
  cbn zeta in Hcases.
  destruct Hcases as [(_ & -> & [-> | (eh & msg & _ & ->)])
                     |(_ & [(_ & -> & ->) | (_ & -> & eh & msg & _ & ->)])];
    (split; [reflexivity|]); (split; [done|]); simpl; eauto.
Qed.


(** X12.  On a State with no ExceptionHandler, as move construction leaves
    one, [Load] ends in the null dereference exactly when a report is due:
    after a syntax or file error and after a chunk that fails to run.  A
    file that loads, or fails with another compile status, is handled as on
    any other State. *)
Theorem Load_without_reporter s h vm file w :
  _l s = Some h → vms w !! h = Some vm → _exception_handler s = None →
  let status := (rt_loadfile vm (c_str file)).1 in
  let cr := rt_call vm (rt_loadfile vm (c_str file)).2 [] in
  let report_due := status = LUA_ERRSYNTAX ∨ status = LUA_ERRFILE ∨
                    (status = lua_ok ∧ cr_status cr ≠ lua_ok) in
  (report_due → Load s file w = Fault NullExceptionHandler) ∧
  (¬ report_due → ∃ w', Load s file w = Done (bool_decide (status = lua_ok)) w').
Proof.
  intros Hl Hh Heh status cr report_due. unfold report_due.
  destruct (decide (status = lua_ok)) as [Hs|Hs].
  - rewrite (Load_compiled s h vm file w Hl Hh Hs). fold cr.
    unfold reported. rewrite Heh.
    rewrite (bool_decide_eq_true_2 _ Hs).
    destruct (decide (cr_status cr = lua_ok)) as [Hr|Hr]; split.
    + intros [Hx|[Hx|[_ Hx]]]; [| |done].
      * rewrite Hx in Hs. by apply LUA_ERRSYNTAX_not_ok in Hs.
      * rewrite Hx in Hs. by apply LUA_ERRFILE_not_ok in Hs.
    + intros _. by eexists.
    + done.
    + intros Hno. destruct Hno. auto.
  - rewrite (Load_compile_failed s h vm file w Hl Hh Hs). fold status.
    unfold reported. rewrite Heh.
    rewrite (bool_decide_eq_false_2 _ Hs).
    destruct (decide (status = LUA_ERRSYNTAX)) as [Hx|Hx].
    { split; [done|]. intros Hno. destruct Hno. auto. }
    destruct (decide (status = LUA_ERRFILE)) as [Hf|Hf].
    { split; [done|]. intros Hno. destruct Hno. auto. }
    split; [|intros _; by eexists].
    intros [?|[?|[? _]]]; done.
Qed.

(** On a handle that is closed every operation but the destructor of a
    borrower ends at its first API call. *)
Lemma dead_handle_faults s h w :
  _l s = Some h → vms w !! h = None →
  (∀ file, Load s file w = Fault DeadState) ∧
  (∀ code, Execute s code w = Fault DeadState) ∧
  (∀ modname openf, OpenLib s modname openf w = Fault DeadState) ∧
  Size s w = Fault DeadState ∧
  (∀ fuel, GlobalNames fuel s w = Fault DeadState).
Proof.
  intros Hl Hh. repeat split; intros.
  - unfold Load. by rewrite Hl, guard_dead.
  - unfold Execute. by rewrite Hl, guard_dead.
  - unfold OpenLib. by rewrite Hl, guard_dead.
  - unfold Size, lua_gettop. by rewrite Hl, run_bind, get_vm_dead.
  - unfold GlobalNames. rewrite Hl.
    unfold lua_pushglobaltable, lua_pushvalue_.
    by rewrite run_bind, run_bind, get_vm_dead.
Qed.

(** X13.  Nothing ties a borrowing State to the owner: once the owner is
    destroyed, every operation of a State that still holds the handle
    reaches the Lua API with the closed handle. *)
Theorem borrower_outlives_owner a o s h vm w :
  objs w !! a = Some o → owns o h → vms w !! h = Some vm → _l s = Some h →
  ∃ w1, State_delete a w = Done () w1 ∧
        (∀ file, Load s file w1 = Fault DeadState) ∧
        (∀ code, Execute s code w1 = Fault DeadState) ∧
        (∀ modname openf, OpenLib s modname openf w1 = Fault DeadState) ∧
        Size s w1 = Fault DeadState ∧
        (∀ fuel, GlobalNames fuel s w1 = Fault DeadState).
Proof.
  intros Ho [Hl Hown] Hh Hs.
  rewrite (State_delete_eq a o w Ho), Hl, Hown, Hh.
  eexists. split; [done|].
  apply (dead_handle_faults s h); [done|]. cbn [vms]. apply lookup_delete_eq.
Qed.

(** Where a call that returns leaves the State's VM and the rest. *)
Lemma perform_effect s h vm c w w' :
  _l s = Some h → vms w !! h = Some vm → perform s c w = Done () w' →
  ∃ ts, vms w' = <[h := mk_vm (vm_stack vm) ts]> (vms w) ∧ objs w' = objs w.
Proof.
  intros Hl Hh Hrun.
  assert (vms w = <[h := mk_vm (vm_stack vm) (vm_tables vm)]> (vms w)) as Hid
    by (by rewrite vm_eta, insert_id).
  destruct c as [file|code|modname openf|fuel]; simpl in Hrun.
  - rewrite run_bind in Hrun. destruct (Load s file w) as [b w1|] eqn:E; [|done].
    injection Hrun as <-.
    apply Load_outcomes in E as (h' & vm' & Hl' & Hh' & Hcases).
    assert (h' = h) as -> by congruence. assert (vm' = vm) as -> by congruence.
    cbn zeta in Hcases.
    destruct Hcases as [(_ & _ & [-> | (eh & msg & _ & ->)])
                       |(_ & [(_ & _ & ->) | (_ & _ & eh & msg & _ & ->)])];
      eexists; (split; [|reflexivity]); simpl; first [exact Hid | reflexivity].
  - rewrite run_bind in Hrun. destruct (Execute s code w) as [b w1|] eqn:E; [|done].
    injection Hrun as <-.
    rewrite (Execute_cases s h vm code w Hl Hh) in E. unfold reported in E.
    destruct (decide _); [|destruct (decide _)];
      try (destruct (_exception_handler s) as [eh|]; [|done]);
      injection E as _ <-; eexists; (split; [|reflexivity]); simpl;
      first [exact Hid | reflexivity].
  - rewrite (OpenLib_cases s h vm modname openf w Hl Hh) in Hrun.
    destruct (already_loaded vm (c_str modname)).
    + injection Hrun as <-. eexists; split; reflexivity.
    + cbn zeta in Hrun. destruct (decide _); [|done]. injection Hrun as <-.
      eexists; split; reflexivity.
  - rewrite run_bind in Hrun.
    destruct (GlobalNames fuel s w) as [names w1|] eqn:E; [|done].
    injection Hrun as <-. apply GlobalNames_world in E as ->.
    eexists; split; [exact Hid|reflexivity].
Qed.

(** X14.  Load, operator(), OpenLib and GlobalNames give back not only the
    depth of the stack but the stack itself: the values that were on it
    are the values on it after the call. *)
Theorem calls_keep_stack_contents s h vm c w w' :
  _l s = Some h → vms w !! h = Some vm → perform s c w = Done () w' →
  ∃ vm', vms w' !! h = Some vm' ∧ vm_stack vm' = vm_stack vm.
Proof.
  intros Hl Hh Hrun.
  destruct (perform_effect s h vm c w w' Hl Hh Hrun) as (ts & -> & _).
  eexists. split; [apply lookup_insert_eq|reflexivity].
Qed.

(** X15.  After a file has loaded, [GlobalNames] lists the keys of the
    global table as the chunk left it. *)
Theorem Load_then_GlobalNames s h vm file t fuel w :
  _l s = Some h → vms w !! h = Some vm →
  let cr := rt_call vm (rt_loadfile vm (c_str file)).2 [] in
  (rt_loadfile vm (c_str file)).1 = lua_ok → cr_status cr = lua_ok →
  cr_tables cr !! LUA_RIDX_GLOBALS = Some t → table_wf t →
  (length t < fuel)%nat →
  (Load s file;; GlobalNames fuel s) w =
  Done (concat (name_of_key <$> t.*1))
       (upd h (mk_vm (vm_stack vm) (cr_tables cr)) w).
Proof.
  intros Hl Hh cr Hs Hr Ht Hwf Hfuel.
  rewrite run_bind, (Load_compiled s h vm file w Hl Hh Hs). fold cr.
  destruct (decide _); [|done].
  by apply (GlobalNames_live fuel s h (mk_vm (vm_stack vm) (cr_tables cr)) t);
    [|apply lookup_upd|..].
Qed.

(** X16.  [OpenLib] has no way to report: when it returns, no reporter was
    called and no State object changed, whatever the State. *)
Theorem OpenLib_never_reports s modname openf w w' :
  OpenLib s modname openf w = Done () w' →
  trace w' = trace w ∧ objs w' = objs w.
Proof.
  intros Hrun. destruct (_l s) as [h|] eqn:Hl;
    [|unfold OpenLib in Hrun; by rewrite Hl, guard_null in Hrun].
  destruct (vms w !! h) as [vm|] eqn:Hh;
    [|unfold OpenLib in Hrun; by rewrite Hl, guard_dead in Hrun].
  rewrite (OpenLib_cases s h vm modname openf w Hl Hh) in Hrun.
  destruct (already_loaded vm (c_str modname)); [by injection Hrun as <-|].
  cbn zeta in Hrun. destruct (decide _); [|done]. by injection Hrun as <-.
Qed.

(** X17.  Built against a Lua older than 5.2, [OpenLib] itself registers
    nothing: it calls the open function with the name and drops what it
    returns, so the tables are exactly those the open function left. *)
Theorem OpenLib_old_ABI_stores_nothing s h vm modname openf w :
  LUA_VERSION_NUM < 502 →
  _l s = Some h → vms w !! h = Some vm →
  let cr := rt_call vm (LCFunction openf) [LString (c_str modname)] in
  cr_status cr = 0 →
  OpenLib s modname openf w = Done () (upd h (mk_vm (vm_stack vm) (cr_tables cr)) w).
Proof.
  intros Hver Hl Hh cr Hok.
  rewrite (OpenLib_cases s h vm modname openf w Hl Hh).
  unfold already_loaded, open_call, OpenLib_tables.
  destruct (Z.leb_spec 503 LUA_VERSION_NUM); [lia|].
  destruct (Z.leb_spec 502 LUA_VERSION_NUM); [lia|].
  cbn [andb]. cbn zeta. fold cr. by destruct (decide _).
Qed.

End Calls.

(** ** One owner per handle *)

Section Ownership.
Context `{!LuaRuntime}.

(** Putting a State at an address keeps the invariant if what it owns is
    open and owned by no State elsewhere. *)
Lemma single_owner_insert vms0 objs0 tr0 vms' a0 s0 tr :
  single_owner (mk_world vms0 objs0 tr0) →
  (∀ h, is_Some (vms0 !! h) → is_Some (vms' !! h)) →
  (∀ h, owns s0 h →
        is_Some (vms' !! h) ∧
        ∀ a s, a ≠ a0 → objs0 !! a = Some s → ¬ owns s h) →
  single_owner (mk_world vms' (<[a0 := s0]> objs0) tr).
Proof.
  intros [Hlive Hone] Hmono Hnew. cbn [vms objs] in Hlive, Hone.
  split; cbn [vms objs].
  - intros a s h Ha Hown. destruct (decide (a = a0)) as [->|Hne].
    + rewrite lookup_insert_eq in Ha. injection Ha as <-. by apply Hnew.
    + rewrite lookup_insert_ne in Ha by done. eauto.
  - intros a1 a2 s1 s2 h H1 H2 O1 O2.
    destruct (decide (a1 = a0)) as [->|Hne1]; destruct (decide (a2 = a0)) as [->|Hne2];
      try done.
    + rewrite lookup_insert_eq in H1. injection H1 as <-.
      rewrite lookup_insert_ne in H2 by done.
      destruct (Hnew h O1) as [_ Hno]. by destruct (Hno a2 s2).
    + rewrite lookup_insert_eq in H2. injection H2 as <-.
      rewrite lookup_insert_ne in H1 by done.
      destruct (Hnew h O2) as [_ Hno]. by destruct (Hno a1 s1).
    + rewrite lookup_insert_ne in H1, H2 by done. eauto.
Qed.

(** Destroying a State that closes nothing. *)
Lemma single_owner_delete w a0 tr :
  single_owner w → single_owner (mk_world (vms w) (delete a0 (objs w)) tr).
Proof.
  intros [Hlive Hone]. split; cbn [vms objs].
  - intros a s h Ha. apply lookup_delete_Some in Ha as [_ Ha]. eauto.
  - intros a1 a2 s1 s2 h H1 H2.
    apply lookup_delete_Some in H1 as [_ H1]. apply lookup_delete_Some in H2 as [_ H2].
    eauto.
Qed.

(** Destroying the owner of [h], which closes [h]. *)
Lemma single_owner_close w a0 s0 h tr :
  single_owner w → objs w !! a0 = Some s0 → owns s0 h →
  single_owner (mk_world (delete h (vms w)) (delete a0 (objs w)) tr).
Proof.
  intros [Hlive Hone] Ha0 Hown0. split; cbn [vms objs].
  - intros a s h' Ha Hown. apply lookup_delete_Some in Ha as [Hne Ha].
    rewrite lookup_delete_ne; [eauto|].
    intros <-. apply Hne. eauto.
  - intros a1 a2 s1 s2 h' H1 H2.
    apply lookup_delete_Some in H1 as [_ H1]. apply lookup_delete_Some in H2 as [_ H2].
    eauto.
Qed.

(** A move, by construction or by assignment: the source ends with no
    handle, the destination with the source's handle and ownership. *)
Lemma single_owner_transfer w this other o o_from t_new :
  single_owner w → objs w !! other = Some o →
  _l o_from = None → _l t_new = _l o → _l_owner t_new = _l_owner o →
  single_owner (mk_world (vms w) (<[other := o_from]> (<[this := t_new]> (objs w)))
                         (trace w)).
Proof.
  intros Hinv Ho Hfrom Hl Hown.
  assert (∀ h, ¬ owns o_from h) as Hnone
    by (intros h [Hx _]; congruence).
  destruct (decide (this = other)) as [->|Hne].
  - rewrite insert_insert_eq.
    apply (single_owner_insert (vms w) (objs w) (trace w)); [done|done|].
    intros h Hh. by destruct (Hnone h).
  - rewrite insert_insert_ne by done.
    apply (single_owner_insert (vms w) (<[other := o_from]> (objs w)) (trace w)).
    + apply (single_owner_insert (vms w) (objs w) (trace w)); [done|done|].
      intros h Hh. by destruct (Hnone h).
    + done.
    + intros h [Hh1 Hh2].
      assert (owns o h) as Hoh by (split; congruence).
      destruct Hinv as [Hlive Hone]. split; [eauto|].
      intros a s Ha Hlook Hs.
      destruct (decide (a = other)) as [->|Hao].
      * rewrite lookup_insert_eq in Hlook. injection Hlook as <-. by destruct (Hnone h).
      * rewrite lookup_insert_ne in Hlook by done.
        apply Hao. eauto.
Qed.

(** A call that returns moves no State and closes no VM. *)
Lemma perform_keeps_worlds_shape s c w w' :
  perform s c w = Done () w' →
  objs w' = objs w ∧ ∀ h, is_Some (vms w !! h) → is_Some (vms w' !! h).
Proof.
  intros Hrun.
  destruct (_l s) as [h|] eqn:Hl; [destruct (vms w !! h) as [vm|] eqn:Hh|].
  - destruct (perform_effect s h vm c w w' Hl Hh Hrun) as (ts & -> & ->).
    split; [done|]. intros h' Hlive.
    destruct (decide (h = h')) as [->|Hne].
    + rewrite lookup_insert_eq. by eexists.
    + by rewrite lookup_insert_ne.
  - destruct (dead_handle_faults s h w Hl Hh) as (HL & HE & HO & _ & HG).
    destruct c; simpl in Hrun; rewrite ?run_bind, ?HL, ?HE, ?HO, ?HG in Hrun; done.
  - destruct c as [file|code|modname openf|fuel]; simpl in Hrun.
    + unfold Load in Hrun. by rewrite Hl, run_bind, guard_null in Hrun.
    + unfold Execute in Hrun. by rewrite Hl, run_bind, guard_null in Hrun.
    + unfold OpenLib in Hrun. by rewrite Hl, guard_null in Hrun.
    + rewrite run_bind in Hrun.
      destruct (GlobalNames fuel s w) as [names w1|] eqn:E; [|done].
      injection Hrun as <-. by apply GlobalNames_world in E as ->.
Qed.

Lemma single_owner_run_op o w w' :
  single_owner w → run_op o w = Done () w' → single_owner w'.
Proof.
  intros Hinv Hrun. destruct o as [this b|this l|this other|this other|this|this cb|this c];
    simpl in Hrun.
  - (* State(bool) *)
    destruct (rt_newstate (vms w)) eqn:Hnew;
      [|by rewrite State_new_throws in Hrun].
    rewrite State_new_eq in Hrun by done. injection Hrun as <-.
    assert (vms w !! fresh (dom (vms w)) = None) as Hfresh
      by apply not_elem_of_dom, is_fresh.
    apply (single_owner_insert (vms w) (objs w) (trace w)); [done|..].
    + intros h Hh. destruct (decide (fresh (dom (vms w)) = h)) as [->|Hne].
      * rewrite lookup_insert_eq. by eexists.
      * by rewrite lookup_insert_ne.
    + intros h [Hh _]. injection Hh as <-. split.
      * rewrite lookup_insert_eq. by eexists.
      * intros a s _ Ha Hown. destruct Hinv as [Hlive _].
        destruct (Hlive a s _ Ha Hown) as [vm Hvm]. congruence.
  - (* State(lua_State *l) *)
    rewrite State_attach_eq in Hrun. injection Hrun as <-.
    apply (single_owner_insert (vms w) (objs w) (trace w)); [done|done|].
    by intros h [_ Hown].
  - (* State(State &&other) *)
    destruct (objs w !! other) as [o|] eqn:Ho.
    + rewrite (State_move_eq this other o) in Hrun by done. injection Hrun as <-.
      by apply (single_owner_transfer w this other o).
    + unfold State_move, get_obj in Hrun. by rewrite run_bind, Ho in Hrun.
  - (* operator=(State &&other) *)
    unfold State_move_assign in Hrun.
    destruct (decide (other = this)) as [->|Hne]; [by injection Hrun as <-|].
    destruct (objs w !! other) as [o|] eqn:Ho;
      [|unfold get_obj in Hrun; by rewrite run_bind, Ho in Hrun].
    destruct (objs w !! this) as [t|] eqn:Ht.
    + rewrite run_bind, (get_obj_eq other o), run_bind, (get_obj_eq this t) in Hrun
        by done.
      injection Hrun as <-.
      by apply (single_owner_transfer w this other o).
    + rewrite run_bind, (get_obj_eq other o) in Hrun by done.
      unfold get_obj in Hrun. by rewrite run_bind, Ht in Hrun.
  - (* ~State() *)
    destruct (objs w !! this) as [s|] eqn:Hs;
      [|unfold State_delete, get_obj in Hrun; by rewrite run_bind, Hs in Hrun].
    rewrite (State_delete_eq this s w Hs) in Hrun.
    destruct (_l s) as [h|] eqn:Hl; [destruct (_l_owner s) eqn:Hown|].
    + destruct (vms w !! h); [|done]. injection Hrun as <-.
      by apply (single_owner_close w this s h).
    + injection Hrun as <-. by apply single_owner_delete.
    + injection Hrun as <-. by apply single_owner_delete.
  - (* HandleExceptionsWith *)
    destruct (objs w !! this) as [s|] eqn:Hs;
      [|unfold HandleExceptionsWith, get_obj in Hrun; by rewrite run_bind, Hs in Hrun].
    destruct (_exception_handler s) as [eh|] eqn:Heh.
    + rewrite (HandleExceptionsWith_eq this s eh) in Hrun by done.
      injection Hrun as <-.
      apply (single_owner_insert (vms w) (objs w) (trace w)); [done|done|].
      intros h Hown. destruct Hinv as [Hlive Hone]. split; [eauto|].
      intros a s' Hne Ha Hs'. apply Hne. eauto.
    + unfold HandleExceptionsWith in Hrun.
      rewrite run_bind, (get_obj_eq this s) in Hrun by done.
      by rewrite Heh in Hrun.
  - (* a call on the object *)
    destruct (objs w !! this) as [s|] eqn:Hs;
      [|unfold on_object, get_obj in Hrun; by rewrite run_bind, Hs in Hrun].
    rewrite (on_object_eq this s) in Hrun by done.
    apply perform_keeps_worlds_shape in Hrun as [Hobjs Hmono].
    destruct Hinv as [Hlive Hone]. split.
    + intros a s' h. rewrite Hobjs. eauto.
    + rewrite Hobjs. eauto.
Qed.

Lemma single_owner_run_ops os : ∀ w w',
  single_owner w → run_ops os w = Done () w' → single_owner w'.
Proof.
  induction os as [|o os IH]; intros w w' Hinv Hrun; simpl in Hrun.
  - by injection Hrun as <-.
  - rewrite run_bind in Hrun. destruct (run_op o w) as [[] w1|] eqn:E; [|done].
    eapply IH; [|done]. by eapply single_owner_run_op.
Qed.

(** X18.  Constructors, moves, destructors, reporter changes and calls
    keep "every owned handle is open and has one owner"; so in any world
    they lead to, the destructor of any State returns: no destructor ever
    closes a handle that is closed already. *)
Theorem no_handle_closed_twice os w0 w :
  single_owner w0 → run_ops os w0 = Done () w →
  single_owner w ∧
  ∀ this s, objs w !! this = Some s →
            ∃ w', State_delete this w = Done () w' ∧ single_owner w'.
Proof.
  intros Hinv Hrun.
  assert (single_owner w) as Hw by by eapply single_owner_run_ops.
  split; [done|]. intros this s Hs.
  assert (∃ w', State_delete this w = Done () w') as [w' Hdel].
  { rewrite (State_delete_eq this s w Hs).
    destruct (_l s) as [h|] eqn:Hl; [destruct (_l_owner s) eqn:Hown|]; try by eexists.
    destruct Hw as [Hlive _]. destruct (Hlive this s h Hs) as [vm ->]; [done|].
    by eexists. }
  exists w'. split; [done|].
  by apply (single_owner_run_op (OpDelete this) w w').
Qed.

End Ownership.

(** ** A new State's globals *)

Section NewState.
Context `{!LuaRuntime}.

(** [GlobalNames] on the State a constructor has just made. *)
Lemma State_new_GlobalNames this should_open_libs t fuel w :
  rt_newstate (vms w) = true →
  vm_tables (new_vm should_open_libs) !! LUA_RIDX_GLOBALS = Some t →
  table_wf t → (length t < fuel)%nat →
  (State_new this should_open_libs;; on_object this (λ s, GlobalNames fuel s)) w =
  Done (concat (name_of_key <$> t.*1))
       (mk_world (<[fresh (dom (vms w)) := new_vm should_open_libs]> (vms w))
                 (<[this := constructed (Some (fresh (dom (vms w)))) true]> (objs w))
                 (trace w)).
Proof.
  intros Hnew Ht Hwf Hfuel. rewrite run_bind, State_new_eq by done.
  erewrite on_object_eq by (cbn [objs]; apply lookup_insert_eq).
  by eapply GlobalNames_live; [|cbn [vms]; apply lookup_insert_eq|..].
Qed.

(** X19.  [State()] opens no library: the State it makes has no global
    names.  [State(true)] has the names [luaL_openlibs] put there. *)
Theorem constructed_State_global_names this fuel w :
  rt_newstate (vms w) = true →
  ((0 < fuel)%nat →
   (State_default this;; on_object this (λ s, GlobalNames fuel s)) w =
   Done [] (mk_world (<[fresh (dom (vms w)) := new_vm false]> (vms w))
                     (<[this := constructed (Some (fresh (dom (vms w)))) true]> (objs w))
                     (trace w))) ∧
  (∀ t, vm_tables (new_vm true) !! LUA_RIDX_GLOBALS = Some t →
        table_wf t → (length t < fuel)%nat →
        (State_new this true;; on_object this (λ s, GlobalNames fuel s)) w =
        Done (concat (name_of_key <$> t.*1))
             (mk_world (<[fresh (dom (vms w)) := new_vm true]> (vms w))
                       (<[this := constructed (Some (fresh (dom (vms w)))) true]> (objs w))
                       (trace w))).
Proof.
  intros Hnew. split.
  - intros Hfuel. unfold State_default.
    apply (State_new_GlobalNames this false [] fuel w); try done.
    split; [constructor|]. simpl. apply not_elem_of_nil.
  - intros t. by apply State_new_GlobalNames.
Qed.

End NewState.

(** ** The further properties on the host program *)

Lemma State_new_then_delete_witness :
  @rt_newstate Demo.lua53 (vms Demo.nothing) = true ∧
  (@State_new Demo.lua53 1%positive true;; State_delete 1%positive) Demo.nothing
  = Done () (mk_world ∅ ∅ [EvGC 1%positive LUA_GCCOLLECT 0; EvClose 1%positive]).
Proof.
  split; [reflexivity|].
  exact (@State_new_then_delete Demo.lua53 1%positive true Demo.nothing eq_refl).
Defined.

Lemma State_attach_then_delete_witness :
  objs Demo.w_obj !! 6%positive = None ∧
  (@State_attach 6%positive (Some 1%positive);; State_delete 6%positive) Demo.w_obj
  = Done () Demo.w_obj.
Proof.
  split; [reflexivity|].
  exact (State_attach_then_delete 6%positive (Some 1%positive) Demo.w_obj eq_refl).
Defined.

Lemma move_construct_closes_once_witness :
  (6%positive ≠ 5%positive ∧ objs Demo.w_obj !! 5%positive = Some Demo.s ∧
   owns Demo.s 1%positive ∧ vms Demo.w_obj !! 1%positive = Some Demo.vm) ∧
  (State_move 6%positive 5%positive;; State_delete 5%positive;;
   State_delete 6%positive) Demo.w_obj
  = Done () (mk_world (delete 1%positive (vms Demo.w_obj))
                      (delete 6%positive (delete 5%positive (objs Demo.w_obj)))
                      (trace Demo.w_obj ++ [EvGC 1%positive LUA_GCCOLLECT 0; EvClose 1%positive])).
Proof.
  assert (6%positive ≠ 5%positive) as H1 by discriminate.
  assert (owns Demo.s 1%positive) as H3 by (split; reflexivity).
  split; [by repeat split|].
  exact (proj2 (move_construct_closes_once 6%positive 5%positive Demo.s 1%positive
                  Demo.vm Demo.w_obj H1 eq_refl H3 eq_refl)).
Defined.

Lemma move_assign_closes_source_only_witness :
  (6%positive ≠ 5%positive ∧ objs Host.w_two !! 5%positive = Some Demo.s ∧
   objs Host.w_two !! 6%positive = Some Host.idle ∧
   owns Demo.s 1%positive ∧ vms Host.w_two !! 1%positive = Some Demo.vm) ∧
  (State_move_assign 6%positive 5%positive;; State_delete 5%positive;;
   State_delete 6%positive) Host.w_two
  = Done () (mk_world (delete 1%positive (vms Host.w_two))
                      (delete 6%positive (delete 5%positive (objs Host.w_two)))
                      (trace Host.w_two ++ [EvGC 1%positive LUA_GCCOLLECT 0; EvClose 1%positive])).
Proof.
  assert (6%positive ≠ 5%positive) as H1 by discriminate.
  assert (owns Demo.s 1%positive) as H3 by (split; reflexivity).
  split; [by repeat split|].
  exact (move_assign_closes_source_only 6%positive 5%positive Demo.s Host.idle
           1%positive Demo.vm Host.w_two H1 eq_refl eq_refl H3 eq_refl).
Defined.

Lemma move_assign_keeps_own_reporter_witness :
  (6%positive ≠ 5%positive ∧ objs Host.w_two !! 5%positive = Some Demo.s ∧
   objs Host.w_two !! 6%positive = Some Host.idle ∧
   _l Demo.s = Some 1%positive ∧ vms Host.w_two !! 1%positive = Some Demo.vm ∧
   _exception_handler Host.idle = Some (mk_ExceptionHandler (HostCallback 8)) ∧
   ((@rt_loadstring Demo.lua53 Demo.vm "x = = 1").1 ≠ 0 ∨
    cr_status (@rt_call Demo.lua53 Demo.vm
                 (@rt_loadstring Demo.lua53 Demo.vm "x = = 1").2 []) ≠ 0)) ∧
  ∃ msg w',
    (State_move_assign 6%positive 5%positive;;
     on_object 6%positive (λ s, @Execute Demo.lua53 s "x = = 1")) Host.w_two
    = Done false w' ∧
    trace w' = trace Host.w_two ++ [EvHandle (HostCallback 8) 1 msg].
Proof.
  assert (6%positive ≠ 5%positive) as H1 by discriminate.
  assert ((@rt_loadstring Demo.lua53 Demo.vm "x = = 1").1 ≠ 0 ∨
          cr_status (@rt_call Demo.lua53 Demo.vm
                       (@rt_loadstring Demo.lua53 Demo.vm "x = = 1").2 []) ≠ 0) as H7
    by (left; vm_compute; discriminate).
  split; [by repeat split|].
  exact (@move_assign_keeps_own_reporter Demo.lua53 6%positive 5%positive Demo.s
           Host.idle 1%positive (mk_ExceptionHandler (HostCallback 8)) Demo.vm
           "x = = 1" Host.w_two H1 eq_refl eq_refl eq_refl eq_refl eq_refl H7).
Defined.

Lemma HandleExceptionsWith_replaces_reporter_witness :
  (objs Demo.w_obj !! 5%positive = Some Demo.s ∧ _l Demo.s = Some 1%positive ∧
   _exception_handler Demo.s = Some (mk_ExceptionHandler (HostCallback 7)) ∧
   vms Demo.w_obj !! 1%positive = Some Demo.vm ∧
   ((@rt_loadstring Demo.lua53 Demo.vm "error({})").1 ≠ 0 ∨
    cr_status (@rt_call Demo.lua53 Demo.vm
                 (@rt_loadstring Demo.lua53 Demo.vm "error({})").2 []) ≠ 0)) ∧
  ∃ msg w',
    (HandleExceptionsWith 5%positive (HostCallback 9);;
     on_object 5%positive (λ s, @Execute Demo.lua53 s "error({})")) Demo.w_obj
    = Done false w' ∧
    trace w' = trace Demo.w_obj ++ [EvHandle (HostCallback 9) 1 msg].
Proof.
  assert ((@rt_loadstring Demo.lua53 Demo.vm "error({})").1 ≠ 0 ∨
          cr_status (@rt_call Demo.lua53 Demo.vm
                       (@rt_loadstring Demo.lua53 Demo.vm "error({})").2 []) ≠ 0) as H5
    by (right; vm_compute; discriminate).
  split; [by repeat split|].
  exact (@HandleExceptionsWith_replaces_reporter Demo.lua53 5%positive Demo.s
           1%positive (mk_ExceptionHandler (HostCallback 7)) Demo.vm (HostCallback 9)
           "error({})" Demo.w_obj eq_refl eq_refl eq_refl eq_refl H5).
Defined.

Lemma moved_to_State_cannot_install_reporter_witness :
  (6%positive ≠ 5%positive ∧ objs Demo.w_obj !! 5%positive = Some Demo.s) ∧
  (State_move 6%positive 5%positive;;
   HandleExceptionsWith 6%positive (HostCallback 9)) Demo.w_obj
  = Fault NullExceptionHandler.
Proof.
  assert (6%positive ≠ 5%positive) as H1 by discriminate.
  split; [by split|].
  exact (proj1 (moved_to_State_cannot_install_reporter 6%positive 5%positive Demo.s
                  (HostCallback 9) Demo.w_obj H1 eq_refl)).
Defined.

Lemma InteractiveDebug_leaves_values_on_stack_witness :
  (_l Demo.s = Some 1%positive ∧ vms Demo.w !! 1%positive = Some Demo.vm) ∧
  ∃ w', (@InteractiveDebug Demo.lua53 Demo.s;; Size Demo.s) Demo.w = Done 2 w' ∧
        trace w' = trace Demo.w.
Proof.
  split; [by split|].
  exact (@InteractiveDebug_leaves_values_on_stack Demo.lua53 Demo.s 1%positive Demo.vm
           Demo.w eq_refl eq_refl).
Defined.

Lemma Load_reports_at_most_once_witness :
  @Load Demo.lua53 Demo.s "bad.lua" Demo.w
  = Done false (log (EvHandle (HostCallback 7) 3 "bad.lua:1: unexpected symbol") Demo.w) ∧
  objs (log (EvHandle (HostCallback 7) 3 "bad.lua:1: unexpected symbol") Demo.w)
  = objs Demo.w.
Proof.
  assert (@Load Demo.lua53 Demo.s "bad.lua" Demo.w
          = Done false (log (EvHandle (HostCallback 7) 3 "bad.lua:1: unexpected symbol")
                            Demo.w)) as Hrun by (vm_compute; reflexivity).
  split; [exact Hrun|].
  exact (proj1 (@Load_reports_at_most_once Demo.lua53 Demo.s "bad.lua" Demo.w false _ Hrun)).
Defined.


Lemma Load_without_reporter_witness :
  (_l Host.orphan = Some 1%positive ∧ vms Demo.w !! 1%positive = Some Demo.vm ∧
   _exception_handler Host.orphan = None) ∧
  @Load Demo.lua53 Host.orphan "boom.lua" Demo.w = Fault NullExceptionHandler ∧
  (∃ w', @Load Demo.lua53 Host.orphan "ok.lua" Demo.w = Done true w') ∧
  (∃ w', @Load Demo.lua53 Host.orphan "oom.lua" Demo.w = Done false w').
Proof.
  split; [by repeat split|].
  pose proof (λ file, @Load_without_reporter Demo.lua53 Host.orphan 1%positive Demo.vm
                        file Demo.w eq_refl eq_refl eq_refl) as L.
  split; [|split].
  - apply (proj1 (L "boom.lua")). right. right. split; [reflexivity|].
    vm_compute; discriminate.
  - apply (proj2 (L "ok.lua")). vm_compute. intros [?|[?|[_ ?]]]; by try discriminate.
  - apply (proj2 (L "oom.lua")). vm_compute. intros [?|[?|[? _]]]; discriminate.
Defined.

Lemma borrower_outlives_owner_witness :
  (objs Demo.w_obj !! 5%positive = Some Demo.s ∧ owns Demo.s 1%positive ∧
   vms Demo.w_obj !! 1%positive = Some Demo.vm ∧ _l Host.borrower = Some 1%positive) ∧
  ∃ w1, State_delete 5%positive Demo.w_obj = Done () w1 ∧
        (∀ file, @Load Demo.lua53 Host.borrower file w1 = Fault DeadState) ∧
        (∀ code, @Execute Demo.lua53 Host.borrower code w1 = Fault DeadState) ∧
        (∀ modname openf,
           @OpenLib Demo.lua53 Host.borrower modname openf w1 = Fault DeadState) ∧
        Size Host.borrower w1 = Fault DeadState ∧
        (∀ fuel, @GlobalNames Demo.lua53 fuel Host.borrower w1 = Fault DeadState).
Proof.
  assert (owns Demo.s 1%positive) as H2 by (split; reflexivity).
  split; [by repeat split|].
  exact (@borrower_outlives_owner Demo.lua53 5%positive Demo.s Host.borrower 1%positive
           Demo.vm Demo.w_obj eq_refl H2 eq_refl eq_refl).
Defined.

Lemma calls_keep_stack_contents_witness :
  (_l Demo.s = Some 1%positive ∧ vms Demo.w !! 1%positive = Some Demo.vm ∧
   ∃ w', @perform Demo.lua53 Demo.s (CallExecute "return 1+1") Demo.w = Done () w') ∧
  ∃ w' vm', @perform Demo.lua53 Demo.s (CallExecute "return 1+1") Demo.w = Done () w' ∧
            vms w' !! 1%positive = Some vm' ∧ vm_stack vm' = [LNumber Demo.five].
Proof.
  assert (@perform Demo.lua53 Demo.s (CallExecute "return 1+1") Demo.w = Done () Demo.w)
    as Hrun by (vm_compute; reflexivity).
  split; [split; [reflexivity|split; [reflexivity|by eexists]]|].
  destruct (@calls_keep_stack_contents Demo.lua53 Demo.s 1%positive Demo.vm
              (CallExecute "return 1+1") Demo.w Demo.w eq_refl eq_refl Hrun)
    as (vm' & Hvm' & Hst).
  by exists Demo.w, vm'.
Defined.

Lemma Load_then_GlobalNames_witness :
  (_l Demo.s = Some 1%positive ∧ vms Demo.w !! 1%positive = Some Demo.vm ∧
   (@rt_loadfile Demo.lua53 Demo.vm "ok.lua").1 = @lua_ok Demo.lua53 ∧
   cr_status (@rt_call Demo.lua53 Demo.vm (@rt_loadfile Demo.lua53 Demo.vm "ok.lua").2 [])
   = @lua_ok Demo.lua53 ∧
   table_wf (Demo.globals ++ [(LString "x", LNumber Demo.one)])) ∧
  ∃ w', (@Load Demo.lua53 Demo.s "ok.lua";; @GlobalNames Demo.lua53 6 Demo.s) Demo.w
        = Done ["print"; "42"; "_G"; "x"] w'.
Proof.
  assert (table_wf (Demo.globals ++ [(LString "x", LNumber Demo.one)])) as Hwf.
  { split; apply (bool_decide_unpack _); vm_compute; reflexivity. }
  split;
    [split; [reflexivity|split; [reflexivity|split;
       [reflexivity|split; [reflexivity|exact Hwf]]]]|].
  eexists.
  refine (@Load_then_GlobalNames Demo.lua53 Demo.s 1%positive Demo.vm "ok.lua"
            (Demo.globals ++ [(LString "x", LNumber Demo.one)]) 6 Demo.w
            eq_refl eq_refl eq_refl eq_refl eq_refl Hwf _).
  simpl. lia.
Defined.

Lemma OpenLib_never_reports_witness :
  (∃ w', @OpenLib Demo.lua53 Demo.s "m" 0 Demo.w = Done () w') ∧
  ∃ w', @OpenLib Demo.lua53 Demo.s "m" 0 Demo.w = Done () w' ∧
        trace w' = trace Demo.w ∧ objs w' = objs Demo.w.
Proof.
  destruct (@OpenLib Demo.lua53 Demo.s "m" 0 Demo.w) as [[] w'|] eqn:Hrun;
    [|vm_compute in Hrun; discriminate].
  split; [by exists w'|].
  exists w'. split; [done|].
  exact (@OpenLib_never_reports Demo.lua53 Demo.s "m" 0%N Demo.w w' Hrun).
Defined.

Lemma OpenLib_old_ABI_stores_nothing_witness :
  (@LUA_VERSION_NUM Demo.lua51 < 502 ∧ _l Demo.s = Some 1%positive ∧
   vms Demo.w !! 1%positive = Some Demo.vm ∧
   cr_status (@rt_call Demo.lua51 Demo.vm (LCFunction 0) [LString "m"]) = 0) ∧
  @OpenLib Demo.lua51 Demo.s "m" 0 Demo.w
  = Done () (upd 1%positive
               (mk_vm (vm_stack Demo.vm)
                      (cr_tables (@rt_call Demo.lua51 Demo.vm (LCFunction 0) [LString "m"])))
               Demo.w).
Proof.
  assert (@LUA_VERSION_NUM Demo.lua51 < 502) as H1 by (vm_compute; reflexivity).
  split; [by repeat split|].
  exact (@OpenLib_old_ABI_stores_nothing Demo.lua51 Demo.s 1%positive Demo.vm "m" 0%N
           Demo.w H1 eq_refl eq_refl eq_refl).
Defined.

Lemma single_owner_nothing : single_owner Demo.nothing.
Proof. split; intros *; cbn [objs Demo.nothing]; by rewrite lookup_empty. Qed.

Lemma no_handle_closed_twice_witness :
  single_owner Demo.nothing ∧
  ∃ w, @run_ops Demo.lua53 Host.program Demo.nothing = Done () w ∧
       single_owner w ∧
       ∀ this s, objs w !! this = Some s →
                 ∃ w', State_delete this w = Done () w' ∧ single_owner w'.
Proof.
  split; [exact single_owner_nothing|].
  destruct (@run_ops Demo.lua53 Host.program Demo.nothing) as [[] w|] eqn:Hrun;
    [|vm_compute in Hrun; discriminate].
  exists w. split; [done|].
  exact (@no_handle_closed_twice Demo.lua53 Host.program Demo.nothing w
           single_owner_nothing Hrun).
Defined.

Lemma constructed_State_global_names_witness :
  (@rt_newstate Demo.lua53 (vms Demo.nothing) = true ∧ (0 < 1)%nat ∧
   table_wf [(LString "string", LTable 10)]) ∧
  (∃ w', (@State_default Demo.lua53 1%positive;;
          on_object 1%positive (λ s, @GlobalNames Demo.lua53 1 s)) Demo.nothing
         = Done [] w') ∧
  (∃ w', (@State_new Demo.lua53 1%positive true;;
          on_object 1%positive (λ s, @GlobalNames Demo.lua53 2 s)) Demo.nothing
         = Done ["string"] w').
Proof.
  assert (table_wf [(LString "string", LTable 10)]) as Hwf.
  { split; apply (bool_decide_unpack _); vm_compute; reflexivity. }
  split; [split; [reflexivity|split; [lia|exact Hwf]]|].
  split.
  - eexists.
    exact (proj1 (@constructed_State_global_names Demo.lua53 1%positive 1 Demo.nothing
                    eq_refl) ltac:(lia)).
  - eexists.
    refine (proj2 (@constructed_State_global_names Demo.lua53 1%positive 2 Demo.nothing
                     eq_refl) [(LString "string", LTable 10)] eq_refl Hwf _).
    simpl; lia.
Defined.

(** The program of the example runs to its end. *)
Example host_program_runs :
  ∃ w, @run_ops Demo.lua53 Host.program Demo.nothing = Done () w ∧
       trace w = [EvHandle PrintToStdOut 1 "syntax error near <eof>"].
Proof. eexists. split; vm_compute; reflexivity. Qed.
